(** * The profile parser of [function_app.py]

    A shallow embedding of the parsing core of the Azure function
    ([_read_pdf_with_metadata], [_extract_contact_information],
    [_parse_profile], [_experience_section_helper],
    [_experienceHeaderHelper]) together with the fragment of Python's [re]
    and [str] that those functions call, and the properties of the
    specification checked against it.  The two section helpers,
    [_get_file_type] and the trigger [ProfileCreatedOrModified], from the
    point where the file has been fetched, are embedded as well, with
    further properties of the code at the end. *)

From Stdlib Require Import String Ascii.
From Stdlib Require Import List NArith Bool Lia Arith PeanoNat.
Import ListNotations.

Set Implicit Arguments.

(** ** Python strings

    A Python [str] is a sequence of Unicode code points. *)

Definition char := N.
Bind Scope N_scope with char.
Definition ustr := list char.

(** ASCII literals, written as Rocq strings. *)
Definition u (s : string) : ustr := map N_of_ascii (list_ascii_of_string s).

Fixpoint ustr_eqb (a b : ustr) : bool :=
  match a, b with
  | [], [] => true
  | x :: a', y :: b' => (x =? y)%N && ustr_eqb a' b'
  | _, _ => false
  end.

(** [x in l] on a list of strings. *)
Definition mem (x : ustr) (l : list ustr) : bool := existsb (ustr_eqb x) l.

(** Truth value of a string: the empty string is false. *)
Definition nonempty (s : ustr) : bool :=
  match s with [] => false | _ :: _ => true end.

(** ** Character classes *)

Definition in_range (lo hi c : char) : bool := ((lo <=? c) && (c <=? hi))%N.

Definition is_upper (c : char) : bool := in_range 65 90 c.          (* [A-Z] *)
Definition is_lower (c : char) : bool := in_range 97 122 c.         (* [a-z] *)
Definition is_alpha (c : char) : bool := is_upper c || is_lower c.  (* [A-Za-z] *)
Definition is_digit (c : char) : bool := in_range 48 57 c.          (* [0-9] *)
Definition is_char (x c : char) : bool := (c =? x)%N.

(** The three dash variants of [[-–—]]: hyphen-minus, en dash, em dash. *)
Definition is_dash (c : char) : bool :=
  is_char 45 c || is_char 8211 c || is_char 8212 c.

(** The quote class of the patterns: the ASCII double quote (34) and the two
    curly double quotes “ and ”. *)
Definition is_quote (c : char) : bool :=
  is_char 34 c || is_char 8220 c || is_char 8221 c.

(** The bullet [•]. *)
Definition bullet : char := 8226.

(** [.] without the DOTALL flag: anything but a line feed. *)
Definition is_any (c : char) : bool := negb (is_char 10 c).

(** [\s] of a [str] pattern and the characters [str.strip()] removes: the
    code points for which [str.isspace] holds. *)
Definition is_space (c : char) : bool :=
  in_range 9 13 c || in_range 28 32 c || is_char 133 c || is_char 160 c
  || is_char 5760 c || in_range 8192 8202 c || is_char 8232 c || is_char 8233 c
  || is_char 8239 c || is_char 8287 c || is_char 12288 c.

(** [[a-zA-Z0-9._%+-]] and [[a-zA-Z0-9.-]] of the email pattern. *)
Definition is_email_local (c : char) : bool :=
  is_alpha c || is_digit c || is_char 46 c || is_char 95 c || is_char 37 c
  || is_char 43 c || is_char 45 c.
Definition is_email_domain (c : char) : bool :=
  is_alpha c || is_digit c || is_char 46 c || is_char 45 c.

(** [\w] of a [str] pattern: an alphanumeric character of the Unicode
    database, or the underscore.  For ASCII this is [[a-zA-Z0-9_]]; beyond
    ASCII it is decided by the interpreter's Unicode tables, which are not
    part of the repository: [tbl] stands for them. *)
Definition is_word (tbl : char -> bool) (c : char) : bool :=
  if (c <? 128)%N then is_alpha c || is_digit c || is_char 95 c else tbl c.

(** ** Regular expressions: the fragment of [re] the patterns use *)

Inductive regex : Type :=
| Eps : regex
| Chr (p : char -> bool) : regex             (* a character class *)
| Seq (r1 r2 : regex) : regex                (* r1r2 *)
| Alt (r1 r2 : regex) : regex                (* r1|r2, r1 tried first *)
| Star (greedy : bool) (r : regex) : regex.  (* r* and r*? *)

Declare Scope regex_scope.
Delimit Scope regex_scope with re.
Bind Scope regex_scope with regex.
Infix ">>" := Seq (at level 61, right associativity) : regex_scope.

Definition Plus (greedy : bool) (r : regex) : regex := Seq r (Star greedy r).  (* r+ r+? *)
Definition Opt (r : regex) : regex := Alt r Eps.                               (* r? *)
Definition AtLeast2 (r : regex) : regex := Seq r (Plus true r).                (* r{2,} *)

(** The repetition of the backtracking matcher below, [body] being the
    matcher of the repeated expression: at most [n] further iterations, the
    greedy form trying one more iteration before it hands over to [k], the
    lazy form after.  An iteration that consumes nothing is abandoned. *)
Fixpoint star_loop (R : Type) (body : ustr -> (ustr -> option R) -> option R)
    (greedy : bool) (k : ustr -> option R) (n : nat) (s : ustr) : option R :=
  match n with
  | O => k s
  | S n' =>
      let again s' :=
        if length s' <? length s then star_loop body greedy k n' s' else None in
      if greedy then
        match body s again with
        | Some x => Some x
        | None => k s
        end
      else
        match k s with
        | Some x => Some x
        | None => body s again
        end
  end.

(** The backtracking matcher.  [bt r s k] matches [r] at the start of [s]
    and hands the rest of the string to the continuation [k]; when [k]
    refuses, the next alternative is tried, in the order of [re]: the
    left branch of an alternation first, a greedy repetition longest first,
    a lazy one shortest first. *)
Fixpoint bt (R : Type) (r : regex) (s : ustr) (k : ustr -> option R) : option R :=
  match r with
  | Eps => k s
  | Chr p =>
      match s with
      | c :: s' => if p c then k s' else None
      | [] => None
      end
  | Seq r1 r2 => bt r1 s (fun s' => bt r2 s' k)
  | Alt r1 r2 =>
      match bt r1 s k with
      | Some x => Some x
      | None => bt r2 s k
      end
  | Star greedy r' => star_loop (bt r') greedy k (length s) s
  end.

(** [re.match(r, s)]: a match starting at position 0; the result is the
    number of characters matched. *)
Definition re_match (r : regex) (s : ustr) : option nat :=
  bt r s (fun rest => Some (length s - length rest)).

Definition matches (r : regex) (s : ustr) : bool :=
  match re_match r s with Some _ => true | None => false end.

(** [re.search(r, s).group()]: the match at the leftmost position where
    there is one. *)
Fixpoint re_search (r : regex) (s : ustr) : option ustr :=
  match re_match r s with
  | Some n => Some (firstn n s)
  | None =>
      match s with
      | [] => None
      | _ :: s' => re_search r s'
      end
  end.

(** [re.sub(r, '', s)]: every match, found from left to right without
    overlap, is deleted.  [skip] counts the characters of the current match
    that are still to be passed over.  (An empty match deletes nothing.) *)
Fixpoint sub_delete_from (r : regex) (s : ustr) (skip : nat) : ustr :=
  match s with
  | [] => []
  | c :: s' =>
      match skip with
      | S n => sub_delete_from r s' n
      | O =>
          match re_match r s with
          | Some (S n) => sub_delete_from r s' n
          | _ => c :: sub_delete_from r s' 0
          end
      end
  end.

Definition re_sub_delete (r : regex) (s : ustr) : ustr := sub_delete_from r s 0.

(** [re.split(r, s)] for a pattern without groups: the pieces of [s] between
    the matches, found from left to right without overlap.  [cur] holds the
    piece being read, reversed.  The separators below all contain a dash, so
    they never match the empty string. *)
Fixpoint split_from (r : regex) (s : ustr) (skip : nat) (cur : ustr) : list ustr :=
  match s with
  | [] => [rev cur]
  | c :: s' =>
      match skip with
      | S n => split_from r s' n cur
      | O =>
          match re_match r s with
          | Some (S n) => rev cur :: split_from r s' n []
          | _ => split_from r s' 0 (c :: cur)
          end
      end
  end.

Definition re_split (r : regex) (s : ustr) : list ustr := split_from r s 0 [].

(** [str.strip()]. *)
Fixpoint lstrip (s : ustr) : ustr :=
  match s with
  | c :: s' => if is_space c then lstrip s' else s
  | [] => []
  end.
Definition rstrip (s : ustr) : ustr := rev (lstrip (rev s)).
Definition strip (s : ustr) : ustr := rstrip (lstrip s).

(** ** The patterns of the source *)

Local Open Scope regex_scope.

(** [[A-Z]\.\s[A-Za-z]+(?:\s[A-Za-z]+)?\s[-–—]\s Q(.+?)Q], where [Q] is the
    quote class. *)
Definition header_pattern : regex :=
  Chr is_upper >> Chr (is_char 46) >> Chr is_space >> Plus true (Chr is_alpha)
  >> Opt (Chr is_space >> Plus true (Chr is_alpha))
  >> Chr is_space >> Chr is_dash >> Chr is_space
  >> Chr is_quote >> Plus false (Chr is_any) >> Chr is_quote.

(** [[a-zA-Z0-9._%+-]+@[a-zA-Z0-9.-]+\.[a-zA-Z]{2,}] *)
Definition email_pattern : regex :=
  Plus true (Chr is_email_local) >> Chr (is_char 64)
  >> Plus true (Chr is_email_domain) >> Chr (is_char 46) >> AtLeast2 (Chr is_alpha).

(** [\s*[-–—]\s*], the separator of the contact header. *)
Definition contact_separator : regex :=
  Star true (Chr is_space) >> Chr is_dash >> Star true (Chr is_space).

(** The quote class alone, the pattern of the [re.sub] on the job title. *)
Definition quote_pattern : regex := Chr is_quote.

(** [•\s*] *)
Definition bullet_pattern : regex := Chr (is_char bullet) >> Star true (Chr is_space).

(** [\s[-–—]\s], the separator of an Experience header. *)
Definition project_separator : regex := Chr is_space >> Chr is_dash >> Chr is_space.

(** [^[A-Z][a-z]*(?:\s+\w+)*\s[-–—]\s\w+(?:\s\w+)*\s[-–—]\s\w+(?:\s\w+)*],
    written field by field; the anchor is implied by [re.match]. *)
Definition word_run (tbl : char -> bool) : regex :=         (* \w+ *)
  Plus true (Chr (is_word tbl)).
Definition first_field (tbl : char -> bool) : regex :=      (* [A-Z][a-z]*(?:\s+\w+)* *)
  Chr is_upper >> Star true (Chr is_lower)
  >> Star true (Plus true (Chr is_space) >> word_run tbl).
Definition next_field (tbl : char -> bool) : regex :=       (* \w+(?:\s\w+)* *)
  word_run tbl >> Star true (Chr is_space >> word_run tbl).
Definition project_header_pattern (tbl : char -> bool) : regex :=
  first_field tbl >> project_separator >> next_field tbl
  >> project_separator >> next_field tbl.

Local Close Scope regex_scope.

(** ** Values and exceptions *)

(** The exceptions the parsing core can raise. *)
Inductive exn : Type := TypeError | IndexError | KeyError.

Inductive result (A : Type) : Type :=
| Ok (a : A)
| Raise (e : exn).
Arguments Ok {A} a.
Arguments Raise {A} e.

Definition bind {A B : Type} (c : result A) (k : A -> result B) : result B :=
  match c with
  | Ok a => k a
  | Raise e => Raise e
  end.

Notation "x <- c ;; k" := (bind c (fun x => k))
  (at level 100, c at next level, right associativity).

(** The values of the output document, as [json.dumps] receives them. *)
#[warnings="-register-all"]
Inductive pyval : Type :=
| PNone : pyval
| PStr (s : ustr) : pyval
| PList (l : list pyval) : pyval
| PDict (d : list (ustr * pyval)) : pyval.

(** Truth value of an object. *)
Definition py_truthy (v : pyval) : bool :=
  match v with
  | PNone => false
  | PStr s => nonempty s
  | PList l => match l with [] => false | _ => true end
  | PDict d => match d with [] => false | _ => true end
  end.

(** A [dict] with [str] keys, in insertion order. *)
Definition dict (V : Type) : Type := list (ustr * V).

Fixpoint get (V : Type) (k : ustr) (d : dict V) : option V :=
  match d with
  | [] => None
  | (k', v) :: d' => if ustr_eqb k' k then Some v else get k d'
  end.

(** [d[k] = v]: an existing key keeps its place, a new one goes last. *)
Fixpoint set (V : Type) (k : ustr) (v : V) (d : dict V) : dict V :=
  match d with
  | [] => [(k, v)]
  | (k', v') :: d' => if ustr_eqb k' k then (k', v) :: d' else (k', v') :: set k v d'
  end.

(** ** Constants of the module *)

Definition REQUIRED_SECTIONS : list ustr :=
  [ u "Name"; u "Email"; u "Job Title"; u "Executive Summary";
    u "Technical Expertise"; u "Functional Expertise"; u "Experience";
    u "Mobility"; u "Industry Sectors"; u "Languages Spoken";
    u "Certifications"; u "Methodologies" ].

Definition BULLET_SECTIONS : list ustr :=
  [ u "Technical Expertise"; u "Functional Expertise"; u "Industry Sectors";
    u "Languages Spoken"; u "Certifications"; u "Methodologies" ].

Definition LONGFORM_SECTIONS : list ustr :=
  [ u "Executive Summary"; u "Mobility"; u "Name"; u "Email"; u "Job Title" ].

(** ** Spans *)

(** One item of [content]: [{'section': ..., 'text': ...}]. *)
Record Span : Type := { section : option ustr; text : ustr }.

Definition option_ustr_eqb (a b : option ustr) : bool :=
  match a, b with
  | Some x, Some y => ustr_eqb x y
  | None, None => true
  | _, _ => false
  end.

(** [==] on two such dicts. *)
Definition span_eqb (a b : Span) : bool :=
  option_ustr_eqb (section a) (section b) && ustr_eqb (text a) (text b).

(** ** [_read_pdf_with_metadata]

    The document as PyMuPDF hands it over: pages, their blocks (a block
    may have no 'lines' entry), the lines of a block, and the texts of the
    spans of a line. *)
Definition Line : Type := list ustr.
Definition Block : Type := option (list Line).
Definition Page : Type := list Block.
Definition Doc : Type := list Page.

Definition spans_of_block (b : Block) : list ustr :=
  match b with
  | Some ls => concat ls
  | None => []
  end.

(** The spans in the order in which the four nested loops visit them. *)
Definition spans_of_doc (doc : Doc) : list ustr :=
  flat_map (fun page => flat_map spans_of_block page) doc.

(** The body of the innermost loop, on the state [(current_section, content)]. *)
Definition read_span (st : option ustr * list Span) (span_text : ustr)
  : option ustr * list Span :=
  let '(current_section, content) := st in
  let text_val := strip span_text in
  if mem text_val REQUIRED_SECTIONS then (Some text_val, content)
  else (current_section, content ++ [{| section := current_section; text := text_val |}]).

Definition read_spans (spans : list ustr) : option ustr * list Span :=
  fold_left read_span spans (None, []).

(** The result for a document that PyMuPDF could open. *)
Definition _read_pdf_with_metadata (doc : Doc) : list Span :=
  snd (read_spans (spans_of_doc doc)).

(** ** [_extract_contact_information] *)

Record ContactInfo : Type :=
  { name : option ustr; email : option ustr; job_title : option ustr }.

(** [content.remove(item)]: the first element equal to [item] goes. *)
Fixpoint remove_first (item : Span) (content : list Span) : list Span :=
  match content with
  | [] => []
  | x :: rest => if span_eqb x item then rest else x :: remove_first item rest
  end.

(** The [for item in content] loop.  The list iterator keeps an index [i]
    into the list that the body is shrinking; the loop ends when the index
    reaches the current length.  [fuel] bounds the number of iterations. *)
Fixpoint contact_loop (fuel i : nat) (content : list Span) (header email : option ustr)
  : list Span * option ustr * option ustr :=
  match fuel with
  | O => (content, header, email)
  | S fuel' =>
      match nth_error content i with
      | None => (content, header, email)
      | Some item =>
          if matches header_pattern (text item) then
            contact_loop fuel' (S i) (remove_first item content) (Some (text item)) email
          else
            match re_search email_pattern (text item) with
            | Some found =>
                contact_loop fuel' (S i) (remove_first item content) header (Some found)
            | None => contact_loop fuel' (S i) content header email
            end
      end
  end.

Definition truthy_str (o : option ustr) : option ustr :=
  match o with
  | Some s => if nonempty s then Some s else None
  | None => None
  end.

(** Returns the contact information and [content] as the loop left it (the
    caller's list is the one that was changed). *)
Definition _extract_contact_information (content : list Span)
  : result (ContactInfo * list Span) :=
  let '(content, header, email) := contact_loop (length content) 0 content None None in
  (* header = re.split(..., header) if header else None *)
  let header := option_map (re_split contact_separator) (truthy_str header) in
  (* job_title = re.sub(..., header[1] if header else None) *)
  job_title <-
    match header with
    | Some (_ :: h1 :: _) => Ok (re_sub_delete quote_pattern h1)
    | Some [_] => Raise IndexError
    | Some [] | None => Raise TypeError
    end ;;
  Ok ({| name := match header with Some (h0 :: _) => Some h0 | _ => None end;
         email := truthy_str email;
         job_title := truthy_str (Some job_title) |},
      content).

(** ** The Experience section *)

Definition str_or_none (s : ustr) : pyval := if nonempty s then PStr s else PNone.

Definition _experienceHeaderHelper (line : ustr) : result pyval :=
  let line := strip (re_sub_delete bullet_pattern line) in
  let parts := re_split project_separator line in
  let sections := filter nonempty (map strip parts) in
  match sections with
  | s0 :: s1 :: s2 :: _ =>
      Ok (PDict [ (u "project_title", str_or_none s0);
                  (u "project_position", str_or_none s1);
                  (u "project_industry", str_or_none s2) ])
  | _ => Raise IndexError
  end.

Definition truthy_lines (o : option (list ustr)) : bool :=
  match o with
  | Some (_ :: _) => true
  | _ => false
  end.

Definition details_value (d : option (list ustr)) : pyval :=
  match d with
  | Some l => PList (map PStr l)
  | None => PNone
  end.

Definition project (hd : pyval * option (list ustr)) : pyval :=
  PDict [ (u "project_header", fst hd); (u "project_details", details_value (snd hd)) ].

Section Experience.

(** The Unicode table behind [\w]. *)
Variable tbl : char -> bool.

Definition is_project_header (line : ustr) : bool :=
  matches (project_header_pattern tbl) line.

(** The [for line in lines] loop with its [else] clause, on the state
    [(project_info, project_details, project_contents)]. *)
Fixpoint segment_loop (lines : list ustr) (project_info : list pyval)
    (project_details : list (option (list ustr)))
    (project_contents : option (list ustr))
  : result (list pyval * list (option (list ustr))) :=
  match lines with
  | [] => Ok (project_info, project_details ++ [project_contents])
  | line :: rest =>
      if is_project_header line then
        let '(project_details, project_contents) :=
          if truthy_lines project_contents
          then (project_details ++ [project_contents], Some [])
          else (project_details, project_contents) in
        info <- _experienceHeaderHelper line ;;
        segment_loop rest (project_info ++ [info]) project_details project_contents
      else
        segment_loop rest project_info project_details
          (match project_contents with
           | Some (x :: l) => Some ((x :: l) ++ [line])
           | _ => Some [line]
           end)
  end.

Definition _experience_section_helper (lines : list ustr) : result (list pyval) :=
  st <- segment_loop lines [] [] None ;;
  Ok (map project (combine (fst st) (snd st))).

End Experience.

(** ** [_parse_profile] *)

(** What [sections_map] holds for a section once aggregation is over. *)
Inductive section_value : Type :=
| Lines (l : list ustr)            (* the aggregated texts *)
| Contact (v : option ustr)        (* Name, Email, Job Title: a str or None *)
| Projects (l : list pyval).       (* Experience, once segmented *)

Definition truthy (v : section_value) : bool :=
  match v with
  | Lines l => match l with [] => false | _ => true end
  | Contact o => match o with Some s => nonempty s | None => false end
  | Projects l => match l with [] => false | _ => true end
  end.

(** The value as it is stored under 'section_content'. *)
Definition to_py (v : section_value) : pyval :=
  match v with
  | Lines l => PList (map PStr l)
  | Contact (Some s) => PStr s
  | Contact None => PNone
  | Projects l => PList l
  end.

(** What [for val in v] yields: the elements of a list, the characters of a
    string. *)
Definition items (v : section_value) : list pyval :=
  match v with
  | Lines l => map PStr l
  | Contact (Some s) => map (fun c => PStr [c]) s
  | Contact None => []
  | Projects l => l
  end.

(** The body of the aggregation loop (lines 159-167), on the state
    [(current_section, sections_map)]; during aggregation every section
    holds a list of texts. *)
Definition aggregate_step (st : option ustr * dict (list ustr)) (item : Span)
  : option ustr * dict (list ustr) :=
  let '(current_section, sections_map) := st in
  let text := strip (text item) in
  let current_section :=
    match section item with
    | Some s => if nonempty s then Some (strip s) else current_section
    | None => current_section
    end in
  match current_section with
  | Some cs =>
      if nonempty cs && nonempty text then
        match get cs sections_map with
        | Some (x :: l) => (current_section, set cs ((x :: l) ++ [text]) sections_map)
        | Some [] => (current_section, set cs [text] sections_map)
        | None => (current_section, sections_map)
        end
      else (current_section, sections_map)
  | None => (current_section, sections_map)
  end.

Definition aggregate (content : list Span) (sections_map : dict (list ustr))
  : option ustr * dict (list ustr) :=
  fold_left aggregate_step content (None, sections_map).

Definition entry (section_name : ustr) (section_content : pyval) : pyval :=
  PDict [ (u "section_name", PStr section_name); (u "section_content", section_content) ].

(** What the loop that builds [content_list] (lines 184-198) appends for
    one section. *)
Definition section_entries (kv : ustr * section_value) : list pyval :=
  let (section, v) := kv in
  if truthy v then
    if mem section LONGFORM_SECTIONS then [entry section (to_py v)]
    else map (entry section) (filter py_truthy (items v))
  else [].

Definition assemble (sections_map : dict section_value) : list pyval :=
  flat_map section_entries sections_map.

Definition document (content_list : list pyval) : pyval :=
  PDict [ (u "sharePointRef", PNone); (u "sections", PList content_list) ].

Section Profile.

Variable tbl : char -> bool.

(** The body of the loop over [REQUIRED_SECTIONS] (lines 173-181).  The
    Experience entry is still the aggregated list there: the three
    assignments before the loop are to other keys. *)
Definition process_section (acc : result (dict section_value)) (section : ustr)
  : result (dict section_value) :=
  sections_map <- acc ;;
  match get section sections_map with
  | None => Raise KeyError
  | Some v =>
      if negb (truthy v) then Ok sections_map
      else if ustr_eqb section (u "Experience") then
        match v with
        | Lines lines =>
            projects <- _experience_section_helper tbl lines ;;
            Ok (set section (Projects projects) sections_map)
        | _ => Ok sections_map
        end
      else Ok sections_map
  end.

Definition _parse_profile (content : list Span) : result pyval :=
  let sections_map : dict (list ustr) := map (fun s => (s, [])) REQUIRED_SECTIONS in
  extracted <- _extract_contact_information content ;;
  let '(contact_sections, content) := extracted in
  let '(_, sections_map) := aggregate content sections_map in
  let sections_map : dict section_value :=
    map (fun kv : ustr * list ustr => (fst kv, Lines (snd kv))) sections_map in
  let sections_map := set (u "Name") (Contact (name contact_sections)) sections_map in
  let sections_map := set (u "Email") (Contact (email contact_sections)) sections_map in
  let sections_map := set (u "Job Title") (Contact (job_title contact_sections)) sections_map in
  sections_map <- fold_left process_section REQUIRED_SECTIONS (Ok sections_map) ;;
  Ok (document (assemble sections_map)).

End Profile.

(** ** The section helpers

    [_bullet_section_helper] and [_longform_section_helper].  Their calls
    in [_parse_profile] are commented out (lines 176-179), so that the
    aggregated lines reach the document as they are. *)

(** [s.split(sep)] for a separator of one character. *)
Fixpoint str_split (sep : char) (s : ustr) : list ustr :=
  match s with
  | [] => [[]]
  | c :: s' =>
      if (c =? sep)%N then [] :: str_split sep s'
      else
        match str_split sep s' with
        | piece :: pieces => (c :: piece) :: pieces
        | [] => [[c]]
        end
  end.

Definition _bullet_section_helper (section_text : ustr) : list ustr :=
  let bullets := str_split bullet section_text in
  map strip (filter (fun b => nonempty (strip b)) bullets).

Definition _longform_section_helper (section_text : ustr) : ustr :=
  strip (re_sub_delete bullet_pattern section_text).

(** ** [_get_file_type] *)

(** [s.endswith(suffix)]. *)
Definition endswith (suffix s : ustr) : bool :=
  ustr_eqb (skipn (length s - length suffix) s) suffix.

Definition _get_file_type (file_path : ustr) : ustr :=
  if endswith (u ".pdf") file_path then u "pdf" else u "unsupported".

(** ** [ProfileCreatedOrModified]

    The trigger from line 22 on, once the file has been fetched.  [opened]
    is the document that PyMuPDF opens, None when the [try] block of the
    reader fails and the reader returns None.  The result is the value
    that is handed to [json.dumps] and stored in the blob, None when the
    function returns without setting the blob. *)
Definition ProfileCreatedOrModified (tbl : char -> bool) (opened : option Doc)
  : result (option pyval) :=
  let content := option_map _read_pdf_with_metadata opened in
  match content with
  | Some (item :: rest) =>
      profile_data <- _parse_profile tbl (item :: rest) ;;
      Ok (Some profile_data)
  | _ => Ok None
  end.

(** * Notions used to state the properties *)

(** ** Texts *)

(** Empty or whitespace-only. *)
Definition blank (s : ustr) : bool := forallb is_space s.

Definition not_blank (t : ustr) : Prop := blank t = false.

(** A string that begins and ends with a character that is not whitespace. *)
Definition solid_ends (s : ustr) : Prop :=
  s <> [] /\
  (forall c s', s = c :: s' -> is_space c = false) /\
  (forall c s', s = s' ++ [c] -> is_space c = false).

(** ** Regular expressions *)

(** The language of a regular expression: what a match can consume. *)
Inductive lang : regex -> ustr -> Prop :=
| lang_eps : lang Eps []
| lang_chr p c : p c = true -> lang (Chr p) [c]
| lang_seq r1 r2 s1 s2 : lang r1 s1 -> lang r2 s2 -> lang (Seq r1 r2) (s1 ++ s2)
| lang_alt_l r1 r2 s : lang r1 s -> lang (Alt r1 r2) s
| lang_alt_r r1 r2 s : lang r2 s -> lang (Alt r1 r2) s
| lang_star_nil g r : lang (Star g r) []
| lang_star_cons g r s1 s2 :
    lang r s1 -> lang (Star g r) s2 -> lang (Star g r) (s1 ++ s2).

(** A matcher for [r]: whatever it returns comes from its continuation,
    called on what is left after a string of the language of [r]. *)
Definition sound_for (R : Type) (r : regex)
    (m : ustr -> (ustr -> option R) -> option R) : Prop :=
  forall s k x, m s k = Some x ->
    exists p rest, s = p ++ rest /\ lang r p /\ k rest = Some x.

(** The empty string is in the language. *)
Fixpoint nullable (r : regex) : bool :=
  match r with
  | Eps => true
  | Chr _ => false
  | Seq r1 r2 => nullable r1 && nullable r2
  | Alt r1 r2 => nullable r1 || nullable r2
  | Star _ _ => true
  end.

(** Every character a match can consume satisfies [P]. *)
Fixpoint chars_in (P : char -> Prop) (r : regex) : Prop :=
  match r with
  | Eps => True
  | Chr p => forall c, p c = true -> P c
  | Seq r1 r2 | Alt r1 r2 => chars_in P r1 /\ chars_in P r2
  | Star _ r' => chars_in P r'
  end.

(** The first character of a non-empty match satisfies [P]. *)
Fixpoint first_in (P : char -> Prop) (r : regex) : Prop :=
  match r with
  | Eps => True
  | Chr p => forall c, p c = true -> P c
  | Seq r1 r2 => first_in P r1 /\ (nullable r1 = true -> first_in P r2)
  | Alt r1 r2 => first_in P r1 /\ first_in P r2
  | Star _ r' => first_in P r'
  end.

(** The last character of a non-empty match satisfies [P]. *)
Fixpoint last_in (P : char -> Prop) (r : regex) : Prop :=
  match r with
  | Eps => True
  | Chr p => forall c, p c = true -> P c
  | Seq r1 r2 => last_in P r2 /\ (nullable r2 = true -> last_in P r1)
  | Alt r1 r2 => last_in P r1 /\ last_in P r2
  | Star _ r' => last_in P r'
  end.

(** No alphanumeric code point is whitespace, a dash or the bullet: what
    the properties of the Experience header need of the Unicode table. *)
Definition alnum_table_ok (tbl : char -> bool) : Prop :=
  forall c, tbl c = true -> is_space c = false /\ is_dash c = false /\ c <> bullet.

(** ** The contact scan *)

Definition is_contact_header (item : Span) : bool := matches header_pattern (text item).

Definition email_of (item : Span) : option ustr := re_search email_pattern (text item).

(** The fragments on which the loop body removes something, and the others. *)
Definition hit (item : Span) : bool :=
  is_contact_header item || match email_of item with Some _ => true | None => false end.

Definition kept (item : Span) : bool := negb (hit item).

(** The fragments whose match the loop body stores in [email]. *)
Definition email_bearing (item : Span) : bool :=
  negb (is_contact_header item) &&
  match email_of item with Some _ => true | None => false end.

(** No fragment that matches a pattern comes directly after another one. *)
Fixpoint spaced (content : list Span) : bool :=
  match content with
  | [] => true
  | x :: rest =>
      match rest with
      | y :: _ => negb (hit x && hit y)
      | [] => true
      end && spaced rest
  end.

(** The email match of the last email-bearing fragment of the stream. *)
Definition last_email_match (content : list Span) : option ustr :=
  match rev (filter email_bearing content) with
  | item :: _ => email_of item
  | [] => None
  end.

(** The text of the last header fragment of the stream. *)
Definition last_header_text (content : list Span) : option ustr :=
  match rev (filter is_contact_header content) with
  | item :: _ => Some (text item)
  | [] => None
  end.

(** What a scan that visits every fragment leaves in [header] and in
    [email], starting from [acc]. *)
Fixpoint last_header (content : list Span) (acc : option ustr) : option ustr :=
  match content with
  | [] => acc
  | x :: rest => last_header rest (if is_contact_header x then Some (text x) else acc)
  end.

Fixpoint last_email (content : list Span) (acc : option ustr) : option ustr :=
  match content with
  | [] => acc
  | x :: rest =>
      last_email rest
        (if is_contact_header x then acc
         else match email_of x with Some found => Some found | None => acc end)
  end.

(** ** Experience lines and project records *)

(** A character that is neither a dash nor the bullet. *)
Definition plain (c : char) : Prop := is_dash c = false /\ c <> bullet.

(** A field of a header line: it has no dash and no bullet, and it begins
    and ends with a character that is not whitespace. *)
Definition field (f : ustr) : Prop := Forall plain f /\ solid_ends f.

(** A separator of a header line: a dash between two whitespace characters. *)
Definition separator (s : ustr) : Prop :=
  exists a d b, s = [a; d; b] /\ is_space a = true /\ is_dash d = true /\ is_space b = true.

(** The header record with its three fields present. *)
Definition header_dict (t p i : ustr) : pyval :=
  PDict [ (u "project_title", PStr t); (u "project_position", PStr p);
          (u "project_industry", PStr i) ].

Definition header_value (v : pyval) : Prop :=
  exists t p i, v = header_dict t p i /\
    blank t = false /\ blank p = false /\ blank i = false.

(** Details that are None or lines of [lines]. *)
Definition details_from (lines : list ustr) (d : option (list ustr)) : Prop :=
  forall l, d = Some l -> incl l lines.

(** One record of the segmenter's result: the header nested under
    'project_header', its three fields not blank, and the details, None or
    a list of lines of the input. *)
Definition project_record (lines : list ustr) (r : pyval) : Prop :=
  exists t p i d,
    r = PDict [ (u "project_header", header_dict t p i);
                (u "project_details", details_value d) ] /\
    blank t = false /\ blank p = false /\ blank i = false /\
    (forall l, d = Some l -> incl l lines).

(** The header that the helper makes of a line. *)
Definition header_of (line : ustr) : pyval :=
  match _experienceHeaderHelper line with
  | Ok v => v
  | Raise _ => PNone
  end.

(** The lines of a list of groups, each a header line and its detail lines. *)
Definition group_lines (groups : list (ustr * list ustr)) : list ustr :=
  flat_map (fun g => fst g :: snd g) groups.

(** A header line followed by at least one line, none of them a header. *)
Definition group_ok (tbl : char -> bool) (g : ustr * list ustr) : Prop :=
  is_project_header tbl (fst g) = true
  /\ snd g <> []
  /\ Forall (fun l => is_project_header tbl l = false) (snd g).

(** The buffer [project_contents] after some detail lines. *)
Definition add_details (contents : option (list ustr)) (lines : list ustr)
  : option (list ustr) :=
  fold_left
    (fun c line =>
       match c with
       | Some (x :: l) => Some ((x :: l) ++ [line])
       | _ => Some [line]
       end)
    lines contents.

(** What a header line appends to [project_details]. *)
Definition flushed (contents : option (list ustr)) : list (option (list ustr)) :=
  if truthy_lines contents then [contents] else [].

(** ** Aggregation and assembly *)

(** [sections_map] before the aggregation. *)
Definition empty_sections : dict (list ustr) := map (fun s => (s, [])) REQUIRED_SECTIONS.

(** What holds of [sections_map] all through the aggregation: its keys are
    the twelve names and no line in it is blank. *)
Definition aggregated (m : dict (list ustr)) : Prop :=
  map fst m = REQUIRED_SECTIONS /\ forall k l, In (k, l) m -> Forall not_blank l.

(** A fragment whose hint is None or one of the twelve names. *)
Definition recognized_hint (item : Span) : Prop :=
  forall s, section item = Some s -> In s REQUIRED_SECTIONS.

(** [sections_map] when the assembly starts. *)
Definition final_map (n e j : option ustr) (l4 l5 l6 : list ustr) (x : section_value)
    (l8 l9 l10 l11 l12 : list ustr) : dict section_value :=
  [ (u "Name", Contact n); (u "Email", Contact e); (u "Job Title", Contact j);
    (u "Executive Summary", Lines l4); (u "Technical Expertise", Lines l5);
    (u "Functional Expertise", Lines l6); (u "Experience", x); (u "Mobility", Lines l8);
    (u "Industry Sectors", Lines l9); (u "Languages Spoken", Lines l10);
    (u "Certifications", Lines l11); (u "Methodologies", Lines l12) ].

(** The current section after a fragment (line 161). *)
Definition next_section (current_section : option ustr) (item : Span) : option ustr :=
  match section item with
  | Some s => if nonempty s then Some (strip s) else current_section
  | None => current_section
  end.

(** The texts of the stream that belong to section [s]: the stripped texts,
    not empty, of the fragments read while [s] is the current section. *)
Fixpoint attributed (s : ustr) (current_section : option ustr) (content : list Span)
  : list ustr :=
  match content with
  | [] => []
  | item :: rest =>
      let cur := next_section current_section item in
      (if option_ustr_eqb cur (Some s) && nonempty (strip (text item))
       then [strip (text item)] else [])
      ++ attributed s cur rest
  end.

(** The texts that the aggregation collects for a section from the
    fragments that the contact extraction left. *)
Definition collected (rest : list Span) (s : ustr) : list ustr := attributed s None rest.

(** The value of Experience when the assembly starts: the project records
    that the segmenter made of the collected lines, if there are any. *)
Definition experience_value (tbl : char -> bool) (rest : list Span) (x : section_value)
  : Prop :=
  (collected rest (u "Experience") = [] /\ x = Lines [])
  \/ exists projects,
       _experience_section_helper tbl (collected rest (u "Experience")) = Ok projects
       /\ x = Projects projects.

(** [sections_map] when the assembly starts, from the contact information
    [info], the fragments [rest] that the extraction left and the value [x]
    of Experience. *)
Definition profile_map (info : ContactInfo) (rest : list Span) (x : section_value)
  : dict section_value :=
  final_map (name info) (email info) (job_title info)
    (collected rest (u "Executive Summary")) (collected rest (u "Technical Expertise"))
    (collected rest (u "Functional Expertise")) x (collected rest (u "Mobility"))
    (collected rest (u "Industry Sectors")) (collected rest (u "Languages Spoken"))
    (collected rest (u "Certifications")) (collected rest (u "Methodologies")).

(** The value of each section when the assembly starts: the contact field
    for Name, Email and Job Title, the project records for Experience, the
    collected lines for the other sections. *)
Definition value_kind (tbl : char -> bool) (info : ContactInfo) (rest : list Span)
    (s : ustr) (v : section_value) : Prop :=
  if ustr_eqb s (u "Name") then v = Contact (name info)
  else if ustr_eqb s (u "Email") then v = Contact (email info)
  else if ustr_eqb s (u "Job Title") then v = Contact (job_title info)
  else if ustr_eqb s (u "Experience") then experience_value tbl rest v
  else v = Lines (collected rest s).

(** The section name of an entry of the document. *)
Definition entry_name (e : pyval) : option ustr :=
  match e with
  | PDict ((_, PStr n) :: _) => Some n
  | _ => None
  end.

(** The entries of the document under one section name, in their order. *)
Definition entries_named (s : ustr) (entries : list pyval) : list pyval :=
  filter (fun e => match entry_name e with Some n => ustr_eqb n s | None => false end) entries.

(** What the document is to hold for a section, by the kind of its value:
    one entry per line of a bullet-style section and per project, one entry
    with the whole list for a longform section that was aggregated, one
    entry with the bare string for a contact field. *)
Definition expected_entries (s : ustr) (v : section_value) : list pyval :=
  match v with
  | Contact (Some t) => if nonempty t then [entry s (PStr t)] else []
  | Contact None => []
  | Lines [] => []
  | Lines (x :: l) =>
      if mem s LONGFORM_SECTIONS then [entry s (PList (map PStr (x :: l)))]
      else map (fun t => entry s (PStr t)) (x :: l)
  | Projects projects => map (entry s) projects
  end.

(** A content without blank texts: a string that is not empty, and not
    blank outside Job Title; a list of lines none of which is blank; a
    project record whose header fields and detail lines are not blank. *)
Definition clean_content (s : ustr) (c : pyval) : Prop :=
  (exists t, c = PStr t /\ nonempty t = true /\ (s <> u "Job Title" -> not_blank t))
  \/ (exists l, c = PList (map PStr l) /\ Forall not_blank l)
  \/ (exists t p i d,
        c = project (header_dict t p i, d)
        /\ not_blank t /\ not_blank p /\ not_blank i
        /\ forall l, d = Some l -> Forall not_blank l).

(** ** The reader and the tags *)

(** The stripped texts, not empty, of the fragments tagged [s]. *)
Definition tagged (s : ustr) (content : list Span) : list ustr :=
  filter nonempty
    (map (fun item => strip (text item))
       (filter (fun item => option_ustr_eqb (section item) (Some s)) content)).

(** The current section of the aggregation after the fragments of
    [content], from [current_section]. *)
Definition section_after (content : list Span) (current_section : option ustr) : option ustr :=
  fold_left next_section content current_section.

(** What a text, read while [current_section] is the current section, adds
    to the list of section [s]: the text itself when [s] is that section and
    the text is not empty, nothing otherwise. *)
Definition contribution (s : ustr) (current_section : option ustr) (t : ustr) : list ustr :=
  if option_ustr_eqb current_section (Some s) && nonempty t then [t] else [].

Definition untagged (item : Span) : Prop := section item = None.

(** The fragments without a tag all come before the tagged ones. *)
Definition headed (content : list Span) : Prop :=
  exists pre post,
    content = pre ++ post /\ Forall untagged pre /\ Forall (fun item => ~ untagged item) post.

(** [l1] is [l2] with some elements left out. *)
Inductive subseq (A : Type) : list A -> list A -> Prop :=
| subseq_nil : subseq [] []
| subseq_keep x l1 l2 : subseq l1 l2 -> subseq (x :: l1) (x :: l2)
| subseq_drop x l1 l2 : subseq l1 l2 -> subseq l1 (x :: l2).

(** ** The contact fields *)

Definition no_dash (s : ustr) : Prop := Forall (fun c => is_dash c = false) s.

Definition no_quote (s : ustr) : Prop := Forall (fun c => is_quote c = false) s.

(** local@domain.tld: a local part and a domain of the characters of the
    pattern, and at least two letters after the last dot. *)
Definition email_shape (e : ustr) : Prop :=
  exists l d t,
    e = l ++ [64%N] ++ d ++ [46%N] ++ t
    /\ l <> [] /\ Forall (fun c => is_email_local c = true) l
    /\ d <> [] /\ Forall (fun c => is_email_domain c = true) d
    /\ 2 <= length t /\ Forall (fun c => is_alpha c = true) t.

(** ** The order of the entries *)

(** The names of [REQUIRED_SECTIONS] in their order, each a number of
    times (possibly none). *)
Definition in_declaration_order (names : list ustr) : Prop :=
  exists counts,
    length counts = length REQUIRED_SECTIONS
    /\ names = flat_map (fun sk => repeat (fst sk) (snd sk)) (combine REQUIRED_SECTIONS counts).

(** ** Header lines and detail lines *)

Definition header_lines (tbl : char -> bool) (lines : list ustr) : list ustr :=
  filter (is_project_header tbl) lines.

Definition detail_lines (tbl : char -> bool) (lines : list ustr) : list ustr :=
  filter (fun line => negb (is_project_header tbl line)) lines.

(** The lines of an element of [project_details]. *)
Definition group_list (d : option (list ustr)) : list ustr :=
  match d with Some l => l | None => [] end.

(** [headers] are the results of the header helper on [lines], one by one. *)
Definition headers_for (lines : list ustr) (headers : list pyval) : Prop :=
  Forall2 (fun line v => _experienceHeaderHelper line = Ok v) lines headers.




(** One record of the segmenter's result on [lines]: under
    'project_header' the header that the header helper makes of a header
    line of the input, its three fields not blank; under 'project_details'
    the value of [d], whose lines ([group_list d]: none for None and for the
    empty list) are a run of consecutive detail lines of the input. *)
Definition record_on (tbl : char -> bool) (lines : list ustr) (r : pyval) : Prop :=
  exists line t p i d,
    r = PDict [ (u "project_header", header_dict t p i);
                (u "project_details", details_value d) ]
    /\ In line (header_lines tbl lines)
    /\ _experienceHeaderHelper line = Ok (header_dict t p i)
    /\ not_blank t /\ not_blank p /\ not_blank i
    /\ exists before after, detail_lines tbl lines = before ++ group_list d ++ after.

(** ** Bullets *)

Definition no_bullet (s : ustr) : Prop := Forall (fun c => c <> bullet) s.

(** A text that is not blank, has no whitespace at its ends and no bullet. *)
Definition clean_item (b : ustr) : Prop := not_blank b /\ strip b = b /\ no_bullet b.

(** The items, each after a bullet. *)
Definition joined (items : list ustr) : ustr := flat_map (fun item => bullet :: item) items.

(** ** Sample inputs *)

(** A table that marks no code point beyond ASCII as alphanumeric.  The
    concrete runs are on texts whose words are ASCII, where the table is
    not consulted. *)
Definition ascii_words : char -> bool := fun _ => false.

(** The ASCII double quote, as a string. *)
Definition dq : ustr := [34%N].

Definition span (s : option ustr) (t : ustr) : Span :=
  {| section := s; text := t |}.

Definition summary : option ustr := Some (u "Executive Summary").

(** [A. Smith - "Senior Consultant"], the header fragment of the
    specification. *)
Definition smith_header : ustr := u "A. Smith - " ++ dq ++ u "Senior Consultant" ++ dq.

Definition smith_info (e : option ustr) : ContactInfo :=
  {| name := Some (u "A. Smith"); email := e; job_title := Some (u "Senior Consultant") |}.

(** The header fragment directly followed by the email fragment. *)
Definition adjacent_contact : list Span :=
  [ span summary smith_header; span summary (u "a.smith@example.com") ].

(** A stream without a header fragment. *)
Definition headerless : list Span := [ span None (u "hello") ].

(** Two email-bearing fragments, kept apart from the header and from each
    other. *)
Definition two_emails : list Span :=
  [ span None smith_header; span None (u "Contact"); span None (u "first@example.com");
    span None (u "or"); span None (u "second@example.com") ].

(** The Experience lines of the specification's example. *)
Definition two_projects : list ustr :=
  [ u "Alpha - Lead - Finance"; u "did X"; u "Beta - Analyst - Retail"; u "did Y" ].

(** The same lines after a detail line that has no header. *)
Definition leading_detail : list ustr := u "intro" :: two_projects.

(** A profile with a contact block, a summary, skills and two projects. *)
Definition sample_profile : list Span :=
  [ span None smith_header;
    span summary (u "Trusted advisor");
    span None (u "a.smith@example.com");
    span None (u "Twenty years in finance");
    span (Some (u "Technical Expertise")) (u "Python");
    span None (u "  ");
    span None (u "SQL");
    span None (u "Azure");
    span (Some (u "Experience")) (u "Alpha - Lead - Finance");
    span None (u "did X");
    span None (u "Beta - Analyst - Retail");
    span None (u "did Y") ].

Definition sample_document : pyval :=
  document
    [ entry (u "Name") (PStr (u "A. Smith"));
      entry (u "Email") (PStr (u "a.smith@example.com"));
      entry (u "Job Title") (PStr (u "Senior Consultant"));
      entry (u "Executive Summary")
        (PList [PStr (u "Trusted advisor"); PStr (u "Twenty years in finance")]);
      entry (u "Technical Expertise") (PStr (u "Python"));
      entry (u "Technical Expertise") (PStr (u "SQL"));
      entry (u "Technical Expertise") (PStr (u "Azure"));
      entry (u "Experience")
        (project (header_dict (u "Alpha") (u "Lead") (u "Finance"), Some [u "did X"]));
      entry (u "Experience")
        (project (header_dict (u "Beta") (u "Analyst") (u "Retail"), Some [u "did Y"])) ].

(** A document of one page: a block with the summary, which holds the
    contact header, and two skills, and a block without lines. *)
Definition sample_pdf : Doc :=
  [ [ Some [ [ u "Executive Summary" ];
             [ smith_header; u " Trusted advisor " ];
             [ u "Technical Expertise"; u "Python"; u "  "; u "SQL" ] ];
      None ] ].

(** What the contact extraction leaves of the fragments of [sample_pdf]. *)
Definition sample_pdf_rest : list Span :=
  [ span summary (u "Trusted advisor");
    span (Some (u "Technical Expertise")) (u "Python");
    span (Some (u "Technical Expertise")) [];
    span (Some (u "Technical Expertise")) (u "SQL") ].

Definition sample_pdf_document : pyval :=
  document
    [ entry (u "Name") (PStr (u "A. Smith"));
      entry (u "Job Title") (PStr (u "Senior Consultant"));
      entry (u "Executive Summary") (PList [PStr (u "Trusted advisor")]);
      entry (u "Technical Expertise") (PStr (u "Python"));
      entry (u "Technical Expertise") (PStr (u "SQL")) ].

(** The records of [two_projects]. *)
Definition two_project_records : list pyval :=
  [ project (header_dict (u "Alpha") (u "Lead") (u "Finance"), Some [u "did X"]);
    project (header_dict (u "Beta") (u "Analyst") (u "Retail"), Some [u "did Y"]) ].

(** What the contact extraction leaves of [two_emails]. *)
Definition two_emails_rest : list Span := [ span None (u "Contact"); span None (u "or") ].

(** A second header fragment, [B. Jones - "Partner"]. *)
Definition jones_header : ustr := u "B. Jones - " ++ dq ++ u "Partner" ++ dq.

(** Two header fragments, kept apart. *)
Definition two_headers : list Span :=
  [ span None smith_header; span None (u "and"); span None jones_header ].

(** The lines of [two_projects], header by header. *)
Definition two_groups : list (ustr * list ustr) :=
  [ (u "Alpha - Lead - Finance", [u "did X"]); (u "Beta - Analyst - Retail", [u "did Y"]) ].

(** A document whose third span, Foo, is not the name of a section. *)
Definition foo_pdf : Doc :=
  [ [ Some [ [ u "Executive Summary"; u "a"; u " Foo "; u "c" ] ] ] ].


(** * Proofs *)

(** ** The regular-expression matcher *)

Section Matcher.

Variable R : Type.

Lemma star_loop_sound r body g :
  sound_for r body ->
  forall n s (k : ustr -> option R) x,
    star_loop body g k n s = Some x ->
    exists p rest, s = p ++ rest /\ lang (Star g r) p /\ k rest = Some x.
Proof.
  intros Hbody n. induction n as [|n IH]; intros s k x H; simpl in H.
  - exists [], s. repeat split; [constructor | assumption].
  - assert (Hagain : body s (fun s' =>
              if length s' <? length s then star_loop body g k n s' else None) = Some x ->
            exists p rest, s = p ++ rest /\ lang (Star g r) p /\ k rest = Some x).
    { intros Hb. apply Hbody in Hb. destruct Hb as (p1 & rest1 & -> & Hp1 & Hk).
      destruct (length rest1 <? length (p1 ++ rest1)); [|discriminate].
      apply IH in Hk. destruct Hk as (p2 & rest & -> & Hp2 & Hk).
      exists (p1 ++ p2), rest. rewrite <- app_assoc. repeat split; [|assumption].
      now constructor. }
    assert (Hstop : k s = Some x ->
            exists p rest, s = p ++ rest /\ lang (Star g r) p /\ k rest = Some x).
    { intros Hk. exists [], s. repeat split; [constructor | assumption]. }
    destruct g.
    + destruct (body s _) eqn:Hb.
      * injection H as ->. now apply Hagain.
      * now apply Hstop.
    + destruct (k s) eqn:Hk.
      * injection H as ->. now apply Hstop.
      * now apply Hagain.
Qed.

Lemma bt_sound r : sound_for r (bt (R:=R) r).
Proof.
  induction r as [|p|r1 IH1 r2 IH2|r1 IH1 r2 IH2|g r IH]; intros s k x H; simpl in H.
  - exists [], s. repeat split; [constructor | assumption].
  - destruct s as [|c s']; [discriminate|].
    destruct (p c) eqn:Hp; [|discriminate].
    exists [c], s'. repeat split; [now constructor | assumption].
  - apply IH1 in H. destruct H as (p1 & rest1 & -> & Hp1 & H).
    apply IH2 in H. destruct H as (p2 & rest & -> & Hp2 & H).
    exists (p1 ++ p2), rest. rewrite <- app_assoc. repeat split; [|assumption].
    now constructor.
  - destruct (bt r1 s k) eqn:H1.
    + injection H as ->. apply IH1 in H1. destruct H1 as (p & rest & -> & Hp & H1).
      exists p, rest. repeat split; [now apply lang_alt_l | assumption].
    + apply IH2 in H. destruct H as (p & rest & -> & Hp & H).
      exists p, rest. repeat split; [now apply lang_alt_r | assumption].
  - eapply star_loop_sound; eauto.
Qed.

(** A greedy repetition never fails when its continuation never does. *)
Lemma star_loop_total body (k : ustr -> option R) :
  (forall s, k s <> None) -> forall n s, star_loop body true k n s <> None.
Proof.
  intros Hk n. induction n as [|n IH]; intros s; simpl; [apply Hk|].
  destruct (body s _); [discriminate | apply Hk].
Qed.

End Matcher.

(** A match of [re.match] is a prefix of the string that lies in the
    language of the pattern. *)
Lemma re_match_sound r s n :
  re_match r s = Some n ->
  exists p rest, s = p ++ rest /\ lang r p /\ n = length p.
Proof.
  unfold re_match. intros H. apply bt_sound in H.
  destruct H as (p & rest & -> & Hp & H). exists p, rest. repeat split; [assumption|].
  injection H as <-. rewrite length_app. lia.
Qed.

Lemma matches_sound r s :
  matches r s = true -> exists p rest, s = p ++ rest /\ lang r p.
Proof.
  unfold matches. destruct (re_match r s) eqn:H; [|discriminate]. intros _.
  apply re_match_sound in H. destruct H as (p & rest & ? & ? & _). eauto.
Qed.

(** ** The bound of a repetition *)

Lemma star_loop_ext (R : Type) (body : ustr -> (ustr -> option R) -> option R) g :
  (forall s k1 k2, (forall s', k1 s' = k2 s') -> body s k1 = body s k2) ->
  forall n s k1 k2, (forall s', k1 s' = k2 s') ->
    star_loop body g k1 n s = star_loop body g k2 n s.
Proof.
  intros Hbody n. induction n as [|n IH]; intros s k1 k2 Hk; simpl; [apply Hk|].
  rewrite (Hk s).
  rewrite (Hbody s _ (fun s' => if length s' <? length s
                                then star_loop body g k2 n s' else None)).
  - reflexivity.
  - intros s'. destruct (length s' <? length s); [now apply IH | reflexivity].
Qed.

(** The matcher uses its continuation only through its values. *)
Lemma bt_ext (R : Type) r :
  forall s (k1 k2 : ustr -> option R), (forall s', k1 s' = k2 s') -> bt r s k1 = bt r s k2.
Proof.
  induction r as [|p|r1 IH1 r2 IH2|r1 IH1 r2 IH2|g r IH]; intros s k1 k2 Hk; simpl.
  - apply Hk.
  - destruct s as [|c s']; [reflexivity|]. destruct (p c); [apply Hk | reflexivity].
  - apply IH1. intros s'. now apply IH2.
  - rewrite (IH1 s k1 k2 Hk), (IH2 s k1 k2 Hk). reflexivity.
  - now apply star_loop_ext.
Qed.

Lemma star_loop_S (R : Type) (body : ustr -> (ustr -> option R) -> option R) g k n s :
  star_loop body g k (S n) s =
  if g then
    match body s (fun s' => if length s' <? length s
                            then star_loop body g k n s' else None) with
    | Some x => Some x
    | None => k s
    end
  else
    match k s with
    | Some x => Some x
    | None => body s (fun s' => if length s' <? length s
                                then star_loop body g k n s' else None)
    end.
Proof. reflexivity. Qed.

(** The number of iterations allowed to a repetition, the length of the
    string, is never what ends it: one more changes nothing. *)
Lemma star_loop_enough (R : Type) r g (k : ustr -> option R) :
  forall n s, length s <= n ->
    star_loop (bt r) g k (S n) s = star_loop (bt r) g k n s.
Proof.
  induction n as [|n IH]; intros s Hlen.
  - destruct s; [|simpl in Hlen; lia]. simpl.
    match goal with
    | |- context [bt r [] ?f] =>
        assert (E : bt r [] f = None);
        [ destruct (bt r [] f) eqn:E; [|reflexivity];
          apply bt_sound in E; destruct E as (? & ? & _ & _ & E); discriminate
        | rewrite E ]
    end.
    destruct g; [reflexivity|]. now destruct (k []).
  - rewrite (star_loop_S (bt r) g k (S n) s), (star_loop_S (bt r) g k n s).
    rewrite (bt_ext r s
               (fun s' => if length s' <? length s
                          then star_loop (bt r) g k (S n) s' else None)
               (fun s' => if length s' <? length s
                          then star_loop (bt r) g k n s' else None)).
    + reflexivity.
    + intros s'. destruct (length s' <? length s) eqn:L; [|reflexivity].
      apply Nat.ltb_lt in L. apply IH. lia.
Qed.

(** ** Character classes *)

Ltac char_arith :=
  unfold is_email_local, is_email_domain, is_word, is_alpha, is_upper, is_lower,
    is_digit, is_space, is_dash, is_quote, is_any, is_char, in_range, bullet in *;
  repeat match goal with
    | |- _ = false => apply not_true_iff_false; intro
    | |- _ /\ _ => split
    | |- _ <> _ => intro
    end;
  repeat match goal with
    | H : _ = false |- _ => apply not_true_iff_false in H
    end;
  rewrite ?orb_true_iff, ?andb_true_iff, ?N.leb_le, ?N.eqb_eq, ?N.ltb_lt in *;
  try lia.

Lemma upper_word tbl c : is_upper c = true -> is_word tbl c = true.
Proof. intros H. unfold is_word. destruct (N.ltb_spec c 128); char_arith. Qed.

Lemma lower_word tbl c : is_lower c = true -> is_word tbl c = true.
Proof. intros H. unfold is_word. destruct (N.ltb_spec c 128); char_arith. Qed.

Lemma word_facts tbl c :
  alnum_table_ok tbl -> is_word tbl c = true ->
  is_space c = false /\ is_dash c = false /\ c <> bullet.
Proof.
  intros Htbl H. unfold is_word in H. destruct (N.ltb_spec c 128).
  - char_arith.
  - now apply Htbl.
Qed.

Lemma space_facts c : is_space c = true -> is_dash c = false /\ c <> bullet.
Proof. intros H. char_arith. Qed.

Lemma dash_not_space c : is_dash c = true -> is_space c = false.
Proof. intros H. char_arith. Qed.

(** ** What the strings of a pattern look like *)

Lemma lang_nil_nullable r s : lang r s -> s = [] -> nullable r = true.
Proof.
  induction 1; intros E; simpl; try reflexivity; try discriminate.
  - apply app_eq_nil in E. destruct E. rewrite IHlang1, IHlang2; auto.
  - rewrite IHlang; auto.
  - rewrite IHlang; auto using orb_true_r.
Qed.

Lemma lang_nonempty r s : lang r s -> nullable r = false -> s <> [].
Proof. intros H Hn E. apply (lang_nil_nullable H) in E. congruence. Qed.

Lemma lang_chars P r s : lang r s -> chars_in P r -> Forall P s.
Proof.
  induction 1; simpl; intros HP; auto.
  - destruct HP. apply Forall_app; auto.
  - destruct HP; auto.
  - destruct HP; auto.
  - apply Forall_app; auto.
Qed.

Lemma lang_first P r s : lang r s -> first_in P r -> forall c s', s = c :: s' -> P c.
Proof.
  induction 1; simpl; intros HP c' s' E; try discriminate.
  - injection E as <- _. auto.
  - destruct HP as [H1 H2]. destruct s1 as [|c1 s1'].
    + simpl in E. eapply IHlang2; eauto. apply H2. eapply lang_nil_nullable; eauto.
    + injection E as <- _. eapply IHlang1; eauto.
  - destruct HP. eauto.
  - destruct HP. eauto.
  - destruct s1 as [|c1 s1'].
    + simpl in E. eapply IHlang2; eauto.
    + injection E as <- _. eapply IHlang1; eauto.
Qed.

Lemma lang_last P r s : lang r s -> last_in P r -> forall c s', s = s' ++ [c] -> P c.
Proof.
  induction 1; simpl; intros HP c' s' E.
  - now destruct s'.
  - destruct s' as [|? [|? ?]]; try discriminate. injection E as <-. auto.
  - destruct HP as [H2 H1]. destruct (rev s2) as [|c2 t2] eqn:R2.
    + apply (f_equal (@rev _)) in R2. rewrite rev_involutive in R2. simpl in R2. subst s2.
      rewrite app_nil_r in E. eapply IHlang1; eauto. apply H1.
      eapply lang_nil_nullable; eauto.
    + apply (f_equal (@rev _)) in R2. rewrite rev_involutive in R2. simpl in R2. subst s2.
      rewrite app_assoc in E. apply app_inj_tail in E. destruct E as [_ <-].
      eapply IHlang2; eauto.
  - destruct HP. eauto.
  - destruct HP. eauto.
  - now destruct s'.
  - destruct (rev s2) as [|c2 t2] eqn:R2.
    + apply (f_equal (@rev _)) in R2. rewrite rev_involutive in R2. simpl in R2. subst s2.
      rewrite app_nil_r in E. eapply IHlang1; eauto.
    + apply (f_equal (@rev _)) in R2. rewrite rev_involutive in R2. simpl in R2. subst s2.
      rewrite app_assoc in E. apply app_inj_tail in E. destruct E as [_ <-].
      eapply IHlang2; eauto.
Qed.

(** ** Stripping *)

Lemma lstrip_app_solid a l b :
  is_space l = false -> lstrip (a ++ l :: b) = lstrip a ++ l :: b.
Proof.
  intros Hl. induction a as [|x a IH]; simpl.
  - now rewrite Hl.
  - destruct (is_space x); auto.
Qed.

Lemma rstrip_app_solid p q : solid_ends p -> rstrip (p ++ q) = p ++ rstrip q.
Proof.
  intros (Hne & _ & Hlast). destruct (exists_last Hne) as (p' & l & ->).
  unfold rstrip. rewrite !rev_app_distr. simpl.
  rewrite <- app_assoc. simpl.
  rewrite lstrip_app_solid by (eapply Hlast; reflexivity).
  rewrite rev_app_distr. simpl. rewrite rev_involutive.
  now rewrite <- !app_assoc.
Qed.

Lemma lstrip_solid p q : solid_ends p -> lstrip (p ++ q) = p ++ q.
Proof.
  intros (Hne & Hfirst & _). destruct p as [|c p']; [congruence|].
  simpl. now rewrite (Hfirst c p' eq_refl).
Qed.

Lemma strip_app_solid p q : solid_ends p -> strip (p ++ q) = p ++ rstrip q.
Proof. intros H. unfold strip. rewrite lstrip_solid by assumption. now apply rstrip_app_solid. Qed.

Lemma solid_ends_app p m q : solid_ends p -> solid_ends q -> solid_ends (p ++ m ++ q).
Proof.
  intros (Hp & Hpf & _) (Hq & _ & Hql). repeat split.
  - destruct p; [congruence | discriminate].
  - intros c s' E. destruct p as [|c' p']; [congruence|].
    injection E as -> _. eapply Hpf; reflexivity.
  - intros c s' E. destruct (exists_last Hq) as (q' & l & ->).
    rewrite !app_assoc in E. apply app_inj_tail in E. destruct E as [_ <-].
    eapply Hql; reflexivity.
Qed.

(** What [strip] leaves is empty or not blank. *)
Lemma lstrip_head s : lstrip s = [] \/ exists c r, lstrip s = c :: r /\ is_space c = false.
Proof.
  induction s as [|x s IH]; simpl; [now left|].
  destruct (is_space x) eqn:E; [assumption|]. right. eauto.
Qed.

Lemma strip_not_blank s : nonempty (strip s) = true -> blank (strip s) = false.
Proof.
  unfold strip. destruct (lstrip_head s) as [-> | (c & r & -> & Hc)].
  - discriminate.
  - intros _. assert (H : solid_ends [c]).
    { repeat split; [discriminate | |].
      - intros c' s' E. now injection E as <- _.
      - intros c' s' E. destruct s' as [|? [|? ?]]; try discriminate. now injection E as <-. }
    change (c :: r) with ([c] ++ r). rewrite rstrip_app_solid by assumption.
    simpl. now rewrite Hc.
Qed.

(** ** The shape of an Experience header line *)

Ltac class_goal tbl :=
  intros;
  first
    [ exact I
    | discriminate
    | now apply space_facts
    | eapply (@word_facts tbl); now eauto using upper_word, lower_word
    | split; eapply (@word_facts tbl); now eauto using upper_word, lower_word ].

Lemma first_field_shape tbl f :
  alnum_table_ok tbl -> lang (first_field tbl) f -> field f.
Proof.
  intros Htbl H. split; [|split; [|split]].
  - eapply lang_chars; [exact H|]. simpl. repeat split; class_goal tbl.
  - eapply lang_nonempty; [exact H|]. reflexivity.
  - eapply lang_first; [exact H|]. simpl. repeat split; class_goal tbl.
  - eapply lang_last; [exact H|]. simpl. repeat split; class_goal tbl.
Qed.

Lemma next_field_shape tbl f :
  alnum_table_ok tbl -> lang (next_field tbl) f -> field f.
Proof.
  intros Htbl H. split; [|split; [|split]].
  - eapply lang_chars; [exact H|]. simpl. repeat split; class_goal tbl.
  - eapply lang_nonempty; [exact H|]. reflexivity.
  - eapply lang_first; [exact H|]. simpl. repeat split; class_goal tbl.
  - eapply lang_last; [exact H|]. simpl. repeat split; class_goal tbl.
Qed.

Lemma project_separator_shape s : lang project_separator s -> separator s.
Proof.
  intros H. unfold project_separator in H.
  inversion H as [| |? ? ? ? H1 H2| | | |]; subst.
  inversion H2 as [| |? ? ? ? H3 H4| | | |]; subst.
  inversion H1; inversion H3; inversion H4; subst.
  simpl. unfold separator. eauto 8.
Qed.

(** A line that matches the header pattern begins with three fields and
    the two separators between them. *)
Lemma project_header_shape tbl line :
  alnum_table_ok tbl -> is_project_header tbl line = true ->
  exists f1 s1 f2 s2 f3 rest,
    line = f1 ++ s1 ++ f2 ++ s2 ++ f3 ++ rest /\
    field f1 /\ separator s1 /\ field f2 /\ separator s2 /\ field f3.
Proof.
  intros Htbl H. apply matches_sound in H. destruct H as (p & rest & -> & H).
  unfold project_header_pattern in H.
  inversion H as [| |? ? f1 q1 Hf1 H1| | | |]; subst.
  inversion H1 as [| |? ? s1 q2 Hs1 H2| | | |]; subst.
  inversion H2 as [| |? ? f2 q3 Hf2 H3| | | |]; subst.
  inversion H3 as [| |? ? s2 f3 Hs2 Hf3| | | |]; subst.
  exists f1, s1, f2, s2, f3, rest. rewrite <- !app_assoc.
  repeat split; eauto using first_field_shape, next_field_shape, project_separator_shape;
    try (eapply first_field_shape; eassumption);
    try (eapply next_field_shape; eassumption).
Qed.

(** ** [_experienceHeaderHelper] on a header line *)

Lemma bullet_pattern_no_match c s : c <> bullet -> re_match bullet_pattern (c :: s) = None.
Proof.
  intros Hc. unfold re_match, bullet_pattern. simpl.
  unfold is_char. now apply N.eqb_neq in Hc as ->.
Qed.

(** Deleting the bullets leaves a prefix without bullets as it is. *)
Lemma sub_delete_plain p q :
  Forall (fun c => c <> bullet) p ->
  sub_delete_from bullet_pattern (p ++ q) 0 = p ++ sub_delete_from bullet_pattern q 0.
Proof.
  induction 1 as [|c p Hc _ IH]; [reflexivity|].
  change ((c :: p) ++ q) with (c :: (p ++ q)).
  cbn [sub_delete_from]. rewrite bullet_pattern_no_match by assumption.
  now rewrite IH.
Qed.

Lemma project_separator_match s :
  re_match project_separator s =
  match s with
  | a :: d :: b :: _ => if is_space a && is_dash d && is_space b then Some 3 else None
  | _ => None
  end.
Proof.
  unfold re_match, project_separator.
  destruct s as [|a [|d [|b s']]]; cbn [bt];
    try destruct (is_space a); try destruct (is_dash d); try destruct (is_space b);
    cbn [andb]; try reflexivity.
  f_equal. cbn [length]. lia.
Qed.

(** Inside a field the separator is not found. *)
Lemma split_field f t cur :
  Forall plain f -> solid_ends f ->
  split_from project_separator (f ++ t) 0 cur =
  split_from project_separator t 0 (rev f ++ cur).
Proof.
  intros Hplain (Hne & _ & Hlast). revert cur.
  induction f as [|c f IH]; intros cur; [congruence|].
  change ((c :: f) ++ t) with (c :: (f ++ t)).
  cbn [split_from]. rewrite project_separator_match.
  inversion Hplain as [|? ? Hc Hf]; subst.
  destruct f as [|c' f'].
  - assert (Hs : is_space c = false) by (apply (Hlast c []); reflexivity).
    simpl. rewrite Hs. simpl. now destruct t as [|? [|? ?]].
  - inversion Hf as [|? ? Hc' _]; subst. destruct Hc' as [Hd _].
    assert (E : match (c' :: f') ++ t with
                | d :: b :: _ => if is_space c && is_dash d && is_space b then Some 3 else None
                | _ => None
                end = None).
    { simpl. rewrite Hd, andb_false_r. simpl. now destruct (f' ++ t). }
    rewrite E. rewrite IH.
    + simpl. now rewrite <- !app_assoc.
    + assumption.
    + discriminate.
    + intros x s' Ex. apply (Hlast x (c :: s')). simpl. now rewrite Ex.
Qed.

Lemma split_separator s t cur :
  separator s ->
  split_from project_separator (s ++ t) 0 cur = rev cur :: split_from project_separator t 0 [].
Proof.
  intros (a & d & b & -> & Ha & Hd & Hb). simpl.
  rewrite project_separator_match, Ha, Hd, Hb. reflexivity.
Qed.

(** The piece that is being read is the beginning of the next piece. *)
Lemma split_from_first r s cur :
  exists x xs, split_from r s 0 cur = (rev cur ++ x) :: xs.
Proof.
  revert cur. induction s as [|c s IH]; intros cur; simpl.
  - exists [], []. now rewrite app_nil_r.
  - destruct (re_match r (c :: s)) as [[|n]|].
    + destruct (IH (c :: cur)) as (x & xs & ->). exists (c :: x), xs.
      simpl. now rewrite <- app_assoc.
    + exists [], (split_from r s n []). now rewrite app_nil_r.
    + destruct (IH (c :: cur)) as (x & xs & ->). exists (c :: x), xs.
      simpl. now rewrite <- app_assoc.
Qed.

Lemma plain_no_bullet f : Forall plain f -> Forall (fun c => c <> bullet) f.
Proof. apply Forall_impl. now intros c [_ H]. Qed.

Lemma separator_no_bullet s : separator s -> Forall (fun c => c <> bullet) s.
Proof.
  intros (a & d & b & -> & Ha & Hd & Hb).
  repeat constructor; try (now apply space_facts); char_arith.
Qed.

Lemma solid_nonempty_strip p q : solid_ends p -> nonempty (strip (p ++ q)) = true.
Proof.
  intros H. rewrite strip_app_solid by assumption.
  destruct H as (Hne & _). now destruct p.
Qed.

(** Every line that matches the header pattern has its three fields. *)
Lemma header_helper_ok tbl line :
  alnum_table_ok tbl -> is_project_header tbl line = true ->
  exists t p i,
    _experienceHeaderHelper line = Ok (header_dict t p i) /\
    nonempty t = true /\ nonempty p = true /\ nonempty i = true.
Proof.
  intros Htbl H.
  destruct (project_header_shape _ Htbl H)
    as (f1 & s1 & f2 & s2 & f3 & rest & -> & [P1 E1] & S1 & [P2 E2] & S2 & [P3 E3]).
  unfold _experienceHeaderHelper, re_sub_delete.
  assert (Hpre : Forall (fun c => c <> bullet) (f1 ++ s1 ++ f2 ++ s2 ++ f3)).
  { repeat (apply Forall_app; split);
      auto using plain_no_bullet, separator_no_bullet. }
  replace (f1 ++ s1 ++ f2 ++ s2 ++ f3 ++ rest)
    with ((f1 ++ s1 ++ f2 ++ s2 ++ f3) ++ rest) by (now rewrite <- !app_assoc).
  rewrite sub_delete_plain by assumption.
  assert (Hends : solid_ends (f1 ++ s1 ++ f2 ++ s2 ++ f3)).
  { replace (f1 ++ s1 ++ f2 ++ s2 ++ f3) with (f1 ++ (s1 ++ f2 ++ s2) ++ f3)
      by (now rewrite <- !app_assoc).
    now apply solid_ends_app. }
  rewrite strip_app_solid by assumption.
  set (tail := rstrip (sub_delete_from bullet_pattern rest 0)).
  unfold re_split. rewrite <- !app_assoc.
  rewrite split_field by assumption. rewrite split_separator by assumption.
  rewrite split_field by assumption. rewrite split_separator by assumption.
  rewrite split_field by assumption.
  destruct (split_from_first project_separator tail (rev f3 ++ [])) as (x & xs & ->).
  rewrite !app_nil_r, !rev_involutive.
  cbn [map filter].
  pose proof (solid_nonempty_strip [] E1) as N1. rewrite app_nil_r in N1.
  pose proof (solid_nonempty_strip [] E2) as N2. rewrite app_nil_r in N2.
  pose proof (solid_nonempty_strip x E3) as N3.
  rewrite N1, N2, N3. unfold str_or_none. rewrite N1, N2, N3.
  exists (strip f1), (strip f2), (strip (f3 ++ x)). auto.
Qed.

(** Whatever the helper returns has three fields that are not blank. *)
Lemma header_helper_shape line v :
  _experienceHeaderHelper line = Ok v ->
  exists t p i, v = header_dict t p i /\
    blank t = false /\ blank p = false /\ blank i = false.
Proof.
  unfold _experienceHeaderHelper.
  set (parts := re_split project_separator _).
  destruct (filter nonempty (map strip parts)) as [|s0 [|s1 [|s2 more]]] eqn:E;
    try discriminate.
  intros H. injection H as <-.
  assert (Hin : forall x, In x [s0; s1; s2] -> nonempty x = true /\ blank x = false).
  { intros x Hx.
    assert (Hf : In x (filter nonempty (map strip parts))).
    { rewrite E. simpl in *. intuition. }
    apply filter_In in Hf. destruct Hf as [Hm Hn]. split; [assumption|].
    apply in_map_iff in Hm. destruct Hm as (y & <- & _). now apply strip_not_blank. }
  destruct (Hin s0) as [N0 B0]; [simpl; auto|].
  destruct (Hin s1) as [N1 B1]; [simpl; auto|].
  destruct (Hin s2) as [N2 B2]; [simpl; auto|].
  unfold str_or_none. rewrite N0, N1, N2. exists s0, s1, s2. auto.
Qed.

(** ** [_experience_section_helper] *)

Section Segmenter.

Variable tbl : char -> bool.

Lemma segment_loop_shape all lines :
  incl lines all ->
  forall info details contents st,
    Forall header_value info ->
    Forall (details_from all) details -> details_from all contents ->
    segment_loop tbl lines info details contents = Ok st ->
    Forall header_value (fst st) /\ Forall (details_from all) (snd st).
Proof.
  induction lines as [|line rest IH]; intros Hincl info details contents st Hi Hd Hc H;
    simpl in H.
  - injection H as <-. simpl. split; [assumption|].
    apply Forall_app. split; [assumption|]. now constructor.
  - assert (Hrest : incl rest all) by (intros x Hx; apply Hincl; now right).
    assert (Hline : In line all) by (apply Hincl; now left).
    destruct (is_project_header tbl line).
    + destruct (_experienceHeaderHelper line) as [hd|e] eqn:Hh.
      2:{ destruct (truthy_lines contents); discriminate. }
      apply header_helper_shape in Hh.
      destruct (truthy_lines contents); simpl in H.
      * apply IH in H; auto.
        -- apply Forall_app. split; [assumption | now constructor].
        -- apply Forall_app. split; [assumption | now constructor].
        -- intros l E. injection E as <-. intros x [].
      * apply IH in H; auto.
        apply Forall_app. split; [assumption | now constructor].
    + apply IH in H; auto.
      destruct contents as [[|x l]|].
      * intros l' E. injection E as <-. intros y [<- | []]. assumption.
      * intros l' E. injection E as <-. intros y Hy.
        change (In y ((x :: l) ++ [line])) in Hy.
        apply in_app_or in Hy. destruct Hy as [Hy | [<- | []]]; [|assumption].
        now apply (Hc (x :: l)).
      * intros l' E. injection E as <-. intros y [<- | []]. assumption.
Qed.

Lemma combine_project_records all info details :
  Forall header_value info -> Forall (details_from all) details ->
  Forall (project_record all) (map project (combine info details)).
Proof.
  intros Hi. revert details. induction Hi as [|hd info Hhd _ IH]; intros details Hd.
  - constructor.
  - destruct Hd as [|d details Hd0 Hd]; [constructor|].
    simpl. constructor; [|now apply IH].
    destruct Hhd as (t & p & i & -> & ? & ? & ?).
    exists t, p, i, d. unfold project. simpl. auto.
Qed.

Lemma segment_loop_total :
  alnum_table_ok tbl ->
  forall lines info details contents,
    exists st, segment_loop tbl lines info details contents = Ok st.
Proof.
  intros Htbl lines. induction lines as [|line rest IH]; intros info details contents; simpl.
  - eauto.
  - destruct (is_project_header tbl line) eqn:Hm.
    + destruct (header_helper_ok _ Htbl Hm) as (t & p & i & -> & _).
      destruct (truthy_lines contents); simpl; apply IH.
    + apply IH.
Qed.

End Segmenter.

(** The segmenter never raises. *)
Lemma experience_section_helper_total tbl lines :
  alnum_table_ok tbl -> exists projects, _experience_section_helper tbl lines = Ok projects.
Proof.
  intros Htbl. unfold _experience_section_helper.
  destruct (segment_loop_total Htbl lines [] [] None) as (st & ->). simpl. eauto.
Qed.

Lemma experience_section_helper_records tbl lines projects :
  _experience_section_helper tbl lines = Ok projects ->
  Forall (project_record lines) projects.
Proof.
  unfold _experience_section_helper.
  destruct (segment_loop tbl lines [] [] None) as [st|e] eqn:H; [|discriminate].
  simpl. intros E. injection E as <-.
  apply segment_loop_shape with (all := lines) in H; auto using incl_refl.
  - destruct H. now apply combine_project_records.
  - intros l E. discriminate.
Qed.

(** ** The pairing of headers and details *)

Section Pairing.

Variable tbl : char -> bool.
Hypothesis tbl_ok : alnum_table_ok tbl.

Lemma segment_details lines rest :
  Forall (fun l => is_project_header tbl l = false) lines ->
  forall info details contents,
    segment_loop tbl (lines ++ rest) info details contents =
    segment_loop tbl rest info details (add_details contents lines).
Proof.
  induction 1 as [|l lines Hl _ IH]; intros info details contents; [reflexivity|].
  simpl. rewrite Hl. apply IH.
Qed.

Lemma add_details_some x l lines : add_details (Some (x :: l)) lines = Some ((x :: l) ++ lines).
Proof.
  revert x l. induction lines as [|y lines IH]; intros x l; simpl.
  - now rewrite app_nil_r.
  - change (x :: l ++ [y]) with (x :: (l ++ [y])). rewrite IH.
    simpl. now rewrite <- app_assoc.
Qed.

Lemma add_details_fresh contents lines :
  lines <> [] -> truthy_lines contents = false -> add_details contents lines = Some lines.
Proof.
  intros Hne Hc. destruct lines as [|y lines]; [congruence|].
  destruct contents as [[|x l]|]; try discriminate Hc;
    exact (add_details_some y [] lines).
Qed.

Lemma segment_group g rest info details contents :
  group_ok tbl g ->
  segment_loop tbl (fst g :: snd g ++ rest) info details contents =
  segment_loop tbl rest (info ++ [header_of (fst g)]) (details ++ flushed contents)
    (Some (snd g)).
Proof.
  intros (Hh & Hne & Hd). cbn [segment_loop]. rewrite Hh.
  destruct (header_helper_ok _ tbl_ok Hh) as (t & p & i & E & _).
  unfold header_of, flushed. rewrite E.
  destruct (truthy_lines contents) eqn:T; cbn [bind].
  - rewrite segment_details by assumption. now rewrite add_details_fresh.
  - rewrite segment_details by assumption. rewrite add_details_fresh by assumption.
    now rewrite app_nil_r.
Qed.

Lemma segment_groups groups :
  Forall (group_ok tbl) groups -> groups <> [] ->
  forall info details contents,
    segment_loop tbl (group_lines groups) info details contents =
    Ok (info ++ map (fun g => header_of (fst g)) groups,
        details ++ flushed contents ++ map (fun g => Some (snd g)) groups).
Proof.
  induction 1 as [|g groups Hg Hgs IH]; intros Hne info details contents; [congruence|].
  unfold group_lines. cbn [flat_map]. fold (group_lines groups).
  change ((fst g :: snd g) ++ group_lines groups)
    with (fst g :: snd g ++ group_lines groups).
  rewrite segment_group by assumption.
  destruct groups as [|g' groups'].
  - simpl. now rewrite <- !app_assoc.
  - rewrite IH by discriminate.
    destruct Hg as (_ & Hd & _). unfold flushed at 2.
    assert (T : truthy_lines (Some (snd g)) = true) by (now destruct (snd g)).
    rewrite T. cbn [map]. now rewrite <- !app_assoc.
Qed.

(** When the lines begin with a header line and every header line is
    followed by at least one detail line, each header is paired with the
    lines that follow it, in the order of the headers. *)
Lemma well_formed_pairing groups :
  Forall (group_ok tbl) groups ->
  _experience_section_helper tbl (group_lines groups) =
  Ok (map (fun g => project (header_of (fst g), Some (snd g))) groups).
Proof.
  intros H. unfold _experience_section_helper.
  destruct groups as [|g groups]; [reflexivity|].
  rewrite segment_groups by (assumption || discriminate).
  cbn [bind fst snd flushed truthy_lines app]. f_equal.
  generalize (g :: groups). intros l. induction l as [|x l IH]; [reflexivity|].
  simpl. now rewrite IH.
Qed.

End Pairing.

(** ** Equality tests *)

Lemma ustr_eqb_eq a b : ustr_eqb a b = true <-> a = b.
Proof.
  revert b. induction a as [|x a IH]; intros [|y b]; simpl; split; try easy.
  - intros H. apply andb_true_iff in H. destruct H as [H1 H2].
    apply N.eqb_eq in H1. apply IH in H2. now subst.
  - intros H. injection H as -> ->. rewrite N.eqb_refl. now apply IH.
Qed.

Lemma ustr_eqb_refl a : ustr_eqb a a = true.
Proof. now apply ustr_eqb_eq. Qed.

Lemma ustr_eqb_neq a b : ustr_eqb a b = false <-> a <> b.
Proof.
  rewrite <- not_true_iff_false. now rewrite ustr_eqb_eq.
Qed.

Lemma mem_In x l : mem x l = true <-> In x l.
Proof.
  unfold mem. rewrite existsb_exists. split.
  - intros (y & Hy & E). apply ustr_eqb_eq in E. now subst.
  - intros H. exists x. split; [assumption | apply ustr_eqb_refl].
Qed.

Lemma span_eqb_eq a b : span_eqb a b = true -> a = b.
Proof.
  destruct a as [sa ta], b as [sb tb]. unfold span_eqb. simpl.
  intros H. apply andb_true_iff in H. destruct H as [H1 H2].
  apply ustr_eqb_eq in H2. subst tb.
  destruct sa, sb; simpl in H1; try discriminate; [|reflexivity].
  apply ustr_eqb_eq in H1. now subst.
Qed.

Lemma span_eqb_refl a : span_eqb a a = true.
Proof.
  destruct a as [[s|] t]; unfold span_eqb; simpl; now rewrite !ustr_eqb_refl.
Qed.

(** ** The scan of [_extract_contact_information] *)

Lemma remove_first_kept item content :
  hit item = true -> filter kept (remove_first item content) = filter kept content.
Proof.
  intros Hh. induction content as [|x rest IH]; [reflexivity|]. simpl.
  destruct (span_eqb x item) eqn:E.
  - apply span_eqb_eq in E. subst x. unfold kept at 2. now rewrite Hh.
  - simpl. now rewrite IH.
Qed.

(** The fragments that match neither pattern all stay, in their order. *)
Lemma contact_loop_keeps fuel :
  forall i content header email,
    filter kept (fst (fst (contact_loop fuel i content header email))) = filter kept content.
Proof.
  induction fuel as [|fuel IH]; intros i content header email; simpl; [reflexivity|].
  destruct (nth_error content i) as [item|] eqn:Hn; [|reflexivity].
  destruct (matches header_pattern (text item)) eqn:Hh.
  - rewrite IH. apply remove_first_kept. unfold hit, is_contact_header. now rewrite Hh.
  - destruct (re_search email_pattern (text item)) eqn:He.
    + rewrite IH. apply remove_first_kept. unfold hit, email_of. rewrite He. apply orb_true_r.
    + apply IH.
Qed.

Lemma remove_first_after pre item rest :
  hit item = true -> Forall (fun x => hit x = false) pre ->
  remove_first item (pre ++ item :: rest) = pre ++ rest.
Proof.
  intros Hh. induction 1 as [|x pre Hx _ IH]; simpl.
  - now rewrite span_eqb_refl.
  - destruct (span_eqb x item) eqn:E.
    + apply span_eqb_eq in E. congruence.
    + now rewrite IH.
Qed.

Lemma nth_error_middle (A : Type) (pre : list A) x rest :
  nth_error (pre ++ x :: rest) (length pre) = Some x.
Proof. rewrite nth_error_app2 by lia. now rewrite Nat.sub_diag. Qed.

(** With enough fuel, on a spaced list, the loop visits every fragment that
    matches and removes it. *)
Lemma contact_loop_spaced fuel :
  forall rest pre header email,
    Forall (fun x => hit x = false) pre -> spaced rest = true -> length rest <= fuel ->
    contact_loop fuel (length pre) (pre ++ rest) header email =
    (pre ++ filter kept rest, last_header rest header, last_email rest email).
Proof.
  induction fuel as [|fuel IH]; intros rest pre header email Hpre Hsp Hlen.
  - destruct rest; [|simpl in Hlen; lia]. reflexivity.
  - destruct rest as [|x rest].
    + simpl. rewrite app_nil_r. now rewrite (proj2 (nth_error_None pre (length pre))) by lia.
    + cbn [contact_loop]. rewrite nth_error_middle.
      simpl in Hsp. apply andb_true_iff in Hsp. destruct Hsp as [Hxy Hsp].
      simpl in Hlen.
      assert (Hstep : forall h e,
                hit x = false ->
                contact_loop fuel (S (length pre)) (pre ++ x :: rest) h e =
                (pre ++ x :: filter kept rest, last_header rest h, last_email rest e)).
      { intros h e Hx.
        replace (S (length pre)) with (length (pre ++ [x])) by (rewrite length_app; simpl; lia).
        replace (pre ++ x :: rest) with ((pre ++ [x]) ++ rest) by (now rewrite <- app_assoc).
        rewrite IH; try assumption; try lia.
        - now rewrite <- app_assoc.
        - apply Forall_app. split; [assumption | now constructor]. }
      assert (Hdrop : forall h e,
                hit x = true ->
                contact_loop fuel (S (length pre)) (pre ++ rest) h e =
                (pre ++ filter kept rest, last_header rest h, last_email rest e)).
      { intros h e Hx. destruct rest as [|y rest'].
        - rewrite app_nil_r. destruct fuel; cbn [contact_loop].
          + simpl. now rewrite app_nil_r.
          + rewrite (proj2 (nth_error_None pre (S (length pre)))) by lia.
            simpl. now rewrite app_nil_r.
        - rewrite Hx in Hxy. simpl in Hxy. apply negb_true_iff in Hxy.
          assert (Hy1 : is_contact_header y = false)
            by (unfold hit in Hxy; now apply orb_false_iff in Hxy).
          assert (Hy2 : email_of y = None).
          { unfold hit in Hxy. apply orb_false_iff in Hxy. destruct Hxy as [_ Hy].
            now destruct (email_of y). }
          replace (S (length pre)) with (length (pre ++ [y])) by (rewrite length_app; simpl; lia).
          replace (pre ++ y :: rest') with ((pre ++ [y]) ++ rest') by (now rewrite <- app_assoc).
          simpl in Hsp. apply andb_true_iff in Hsp. destruct Hsp as [_ Hsp].
          simpl in Hlen.
          rewrite IH; try assumption; try lia.
          + simpl. unfold kept at 2. rewrite Hxy, Hy1, Hy2. simpl.
            now rewrite <- app_assoc.
          + apply Forall_app. split; [assumption | now constructor]. }
      fold (is_contact_header x). fold (email_of x).
      destruct (is_contact_header x) eqn:Hh.
      * assert (Hx : hit x = true) by (unfold hit; now rewrite Hh).
        rewrite remove_first_after by assumption.
        rewrite Hdrop by assumption. simpl. unfold kept at 2. rewrite Hx, Hh. reflexivity.
      * destruct (email_of x) as [found|] eqn:He.
        -- assert (Hx : hit x = true) by (unfold hit; rewrite He; apply orb_true_r).
           rewrite remove_first_after by assumption.
           rewrite Hdrop by assumption. simpl. unfold kept at 2. rewrite Hx, Hh, He. reflexivity.
        -- assert (Hx : hit x = false) by (unfold hit; now rewrite Hh, He).
           rewrite Hstep by assumption. simpl. unfold kept at 2. rewrite Hx, Hh, He. reflexivity.
Qed.

Lemma remove_first_length item content :
  length (remove_first item content) <= length content.
Proof.
  induction content as [|x c IH]; simpl; [lia|].
  destruct (span_eqb x item); simpl; lia.
Qed.

(** The bound on the iterations is never what stops the loop: the index has
    reached the end of the list when the fuel runs out. *)
Lemma contact_loop_fuel fuel :
  forall i content header email,
    length content - i <= fuel ->
    contact_loop (S fuel) i content header email = contact_loop fuel i content header email.
Proof.
  induction fuel as [|fuel IH]; intros i content header email Hlen.
  - simpl. now rewrite (proj2 (nth_error_None content i)) by lia.
  - cbn [contact_loop].
    pose proof (fun item => remove_first_length item content) as Hrm.
    destruct (nth_error content i) as [item|] eqn:Hn; [|reflexivity].
    assert (Hi : i < length content) by (apply nth_error_Some; congruence).
    destruct (matches header_pattern (text item)).
    + apply IH. specialize (Hrm item). lia.
    + destruct (re_search email_pattern (text item)).
      * apply IH. specialize (Hrm item). lia.
      * apply IH. lia.
Qed.

(** ** The contact header and its separator *)

Lemma lang_seq_inv r1 r2 s :
  lang (Seq r1 r2) s -> exists s1 s2, s = s1 ++ s2 /\ lang r1 s1 /\ lang r2 s2.
Proof. intros H. inversion H; subst. eauto. Qed.

Lemma lang_chr_inv p s : lang (Chr p) s -> exists c, s = [c] /\ p c = true.
Proof. intros H. inversion H; subst. eauto. Qed.

(** A text that matches the header pattern begins with a capital letter
    and has a dash. *)
Lemma contact_header_shape h :
  matches header_pattern h = true ->
  exists c h', h = c :: h' /\ is_upper c = true /\ existsb is_dash h' = true.
Proof.
  intros H. apply matches_sound in H. destruct H as (p & rest & -> & H).
  unfold header_pattern in H.
  apply lang_seq_inv in H. destruct H as (s1 & t1 & -> & H1 & H).
  apply lang_seq_inv in H. destruct H as (s2 & t2 & -> & _ & H).
  apply lang_seq_inv in H. destruct H as (s3 & t3 & -> & _ & H).
  apply lang_seq_inv in H. destruct H as (s4 & t4 & -> & _ & H).
  apply lang_seq_inv in H. destruct H as (s5 & t5 & -> & _ & H).
  apply lang_seq_inv in H. destruct H as (s6 & t6 & -> & _ & H).
  apply lang_seq_inv in H. destruct H as (s7 & t7 & -> & H7 & _).
  apply lang_chr_inv in H1. destruct H1 as (c & -> & Hc).
  apply lang_chr_inv in H7. destruct H7 as (d & -> & Hd).
  exists c, ((s2 ++ s3 ++ s4 ++ s5 ++ s6 ++ [d] ++ t7) ++ rest).
  split; [reflexivity|]. split; [assumption|].
  rewrite !existsb_app. simpl. rewrite Hd. simpl.
  now rewrite !orb_true_r.
Qed.

Lemma contact_separator_at_dash c s :
  is_dash c = true -> re_match contact_separator (c :: s) <> None.
Proof.
  intros Hd. unfold re_match, contact_separator. cbn [bt length star_loop].
  rewrite (dash_not_space _ Hd), Hd.
  apply star_loop_total. discriminate.
Qed.

Lemma contact_separator_consumes s n : re_match contact_separator s = Some n -> n <> 0.
Proof.
  intros H. apply re_match_sound in H. destruct H as (p & rest & -> & Hp & ->).
  apply lang_nonempty in Hp; [|reflexivity]. now destruct p.
Qed.

Lemma split_from_nonempty r s : forall skip cur, split_from r s skip cur <> [].
Proof.
  induction s as [|c s IH]; intros skip cur; simpl; [discriminate|].
  destruct skip; [|apply IH].
  destruct (re_match r (c :: s)) as [[|n]|]; try apply IH. discriminate.
Qed.

(** A text with a dash splits into at least two pieces. *)
Lemma split_at_dash s :
  existsb is_dash s = true ->
  forall cur, exists h0 h1 more, split_from contact_separator s 0 cur = h0 :: h1 :: more.
Proof.
  induction s as [|c s IH]; intros Hd cur; [discriminate|]. simpl.
  destruct (re_match contact_separator (c :: s)) as [[|n]|] eqn:E.
  - now apply contact_separator_consumes in E.
  - destruct (split_from contact_separator s n []) as [|h1 more] eqn:E2.
    + now apply split_from_nonempty in E2.
    + eauto.
  - simpl in Hd. destruct (is_dash c) eqn:Hc.
    + now apply (contact_separator_at_dash c s) in Hc.
    + now apply IH.
Qed.

Lemma last_header_matches content :
  forall acc h,
    (forall a, acc = Some a -> matches header_pattern a = true) ->
    last_header content acc = Some h -> matches header_pattern h = true.
Proof.
  induction content as [|x rest IH]; intros acc h Hacc H; simpl in H; [now apply Hacc|].
  eapply IH; [|exact H]. intros a Ha.
  unfold is_contact_header in Ha. destruct (matches header_pattern (text x)) eqn:E.
  - now injection Ha as <-.
  - now apply Hacc.
Qed.

Lemma last_header_found content :
  existsb is_contact_header content = true ->
  forall acc, exists h, last_header content acc = Some h.
Proof.
  induction content as [|x rest IH]; intros H acc; [discriminate|]. simpl in *.
  destruct (is_contact_header x) eqn:E.
  - destruct (existsb is_contact_header rest) eqn:E2; [now apply IH|].
    clear IH H. exists (text x). revert E2. generalize (Some (text x)).
    induction rest as [|y rest IH]; intros acc' E2; [reflexivity|]. simpl in *.
    apply orb_false_iff in E2. destruct E2 as [-> E2]. now apply IH.
  - now apply IH.
Qed.

(** A match of [re.search] lies in the language of the pattern. *)
Lemma re_search_sound r s found : re_search r s = Some found -> lang r found.
Proof.
  induction s as [|c s IH]; simpl.
  - destruct (re_match r []) eqn:E; [|discriminate]. intros H. injection H as <-.
    apply re_match_sound in E. destruct E as (p & rest & E & Hp & ->).
    rewrite E. now rewrite firstn_app, Nat.sub_diag, firstn_all, app_nil_r.
  - destruct (re_match r (c :: s)) eqn:E; [|exact IH]. intros H. injection H as <-.
    apply re_match_sound in E. destruct E as (p & rest & E & Hp & ->).
    rewrite E. now rewrite firstn_app, Nat.sub_diag, firstn_all, app_nil_r.
Qed.

Lemma last_email_nonempty content :
  forall acc found,
    (forall a, acc = Some a -> nonempty a = true) ->
    last_email content acc = Some found -> nonempty found = true.
Proof.
  induction content as [|x rest IH]; intros acc found Hacc H; simpl in H; [now apply Hacc|].
  eapply IH; [|exact H]. intros a Ha.
  destruct (is_contact_header x); [now apply Hacc|].
  destruct (email_of x) as [m|] eqn:E; [|now apply Hacc].
  injection Ha as <-. apply re_search_sound in E.
  apply lang_nonempty in E; [|reflexivity]. now destruct m.
Qed.

(** ** The result of [_extract_contact_information] *)

Lemma last_email_snoc content acc x :
  last_email (content ++ [x]) acc =
  if is_contact_header x then last_email content acc
  else match email_of x with Some found => Some found | None => last_email content acc end.
Proof. revert acc. induction content as [|y rest IH]; intros acc; simpl; [reflexivity | apply IH]. Qed.

Lemma last_header_snoc content acc x :
  last_header (content ++ [x]) acc =
  if is_contact_header x then Some (text x) else last_header content acc.
Proof. revert acc. induction content as [|y rest IH]; intros acc; simpl; [reflexivity | apply IH]. Qed.

Lemma last_email_is_last content : last_email content None = last_email_match content.
Proof.
  induction content as [|x content IH] using rev_ind; [reflexivity|].
  rewrite last_email_snoc. unfold last_email_match in *. rewrite filter_app. simpl.
  unfold email_bearing at 2. destruct (is_contact_header x); simpl.
  - now rewrite app_nil_r.
  - destruct (email_of x) eqn:E; simpl.
    + now rewrite rev_app_distr.
    + now rewrite app_nil_r.
Qed.

Lemma last_header_is_last content : last_header content None = last_header_text content.
Proof.
  induction content as [|x content IH] using rev_ind; [reflexivity|].
  rewrite last_header_snoc. unfold last_header_text in *. rewrite filter_app. simpl.
  destruct (is_contact_header x); simpl.
  - now rewrite rev_app_distr.
  - now rewrite app_nil_r.
Qed.

(** On a spaced stream with a header fragment the extraction returns, with
    the text of the last header fragment split into name and job title,
    and the match of the last email-bearing fragment. *)
Lemma extract_spaced content :
  spaced content = true -> existsb is_contact_header content = true ->
  exists h h0 h1 more,
    last_header_text content = Some h /\
    re_split contact_separator h = h0 :: h1 :: more /\
    _extract_contact_information content =
    Ok ({| name := Some h0;
           email := last_email_match content;
           job_title := truthy_str (Some (re_sub_delete quote_pattern h1)) |},
        filter kept content).
Proof.
  intros Hsp Hex. unfold _extract_contact_information.
  pose proof (@contact_loop_spaced (length content) content [] None None
                (Forall_nil _) Hsp (le_n _)) as E.
  simpl in E. rewrite E. clear E.
  destruct (last_header_found _ Hex None) as (h & Hh).
  pose proof (last_header_matches content (acc:=None) (h:=h)) as Hm.
  specialize (Hm ltac:(discriminate) Hh).
  destruct (contact_header_shape _ Hm) as (c & h' & -> & _ & Hd).
  destruct (@split_at_dash (c :: h') ltac:(simpl; rewrite Hd; apply orb_true_r) [])
    as (h0 & h1 & more & Hs).
  exists (c :: h'), h0, h1, more.
  rewrite <- last_header_is_last, <- last_email_is_last, Hh.
  split; [reflexivity|]. split; [exact Hs|].
  simpl. unfold re_split. rewrite Hs. simpl.
  assert (He : truthy_str (last_email content None) = last_email content None).
  { destruct (last_email content None) as [found|] eqn:E; [|reflexivity].
    apply last_email_nonempty in E; [|discriminate]. simpl. now rewrite E. }
  now rewrite He.
Qed.

Lemma contact_loop_results fuel :
  forall i content header email,
    (forall a, header = Some a -> matches header_pattern a = true) ->
    (forall a, email = Some a -> lang email_pattern a) ->
    let r := contact_loop fuel i content header email in
    (forall a, snd (fst r) = Some a -> matches header_pattern a = true) /\
    (forall a, snd r = Some a -> lang email_pattern a).
Proof.
  induction fuel as [|fuel IH]; intros i content header email Hh He; simpl; [now split|].
  destruct (nth_error content i) as [item|]; [|now split].
  destruct (matches header_pattern (text item)) eqn:Hm.
  - apply IH; [|assumption]. intros a E. now injection E as <-.
  - destruct (re_search email_pattern (text item)) as [found|] eqn:Hs.
    + apply IH; [assumption|]. intros a E. injection E as <-.
      now apply re_search_sound in Hs.
    + now apply IH.
Qed.

Lemma contact_separator_not_at_capital c s :
  is_upper c = true -> re_match contact_separator (c :: s) = None.
Proof.
  intros Hc. destruct (re_match contact_separator (c :: s)) as [n|] eqn:E; [|reflexivity].
  apply re_match_sound in E. destruct E as (p & rest & E & Hp & _).
  assert (Hne : p <> []) by (apply (lang_nonempty Hp); reflexivity).
  destruct p as [|c' p']; [congruence|]. injection E as <- _.
  assert (H : is_space c = true \/ is_dash c = true).
  { eapply (lang_first (fun c => is_space c = true \/ is_dash c = true)); [exact Hp| |reflexivity].
    simpl. repeat split; auto. }
  destruct H as [H|H]; char_arith.
Qed.

Lemma email_not_blank found : lang email_pattern found -> blank found = false.
Proof.
  intros H.
  assert (Hne : found <> []) by (apply (lang_nonempty H); reflexivity).
  assert (Hall : Forall (fun c => is_space c = false) found).
  { eapply lang_chars; [exact H|]. simpl. repeat split; intros c Hc; char_arith. }
  destruct found as [|c rest]; [congruence|].
  inversion Hall; subst. simpl. now rewrite H2.
Qed.

(** What the extraction returns when it returns: a name that is not blank,
    an email address that is not blank, a job title that is not empty. *)
Lemma extract_fields content info rest :
  _extract_contact_information content = Ok (info, rest) ->
  (exists t, name info = Some t /\ blank t = false) /\
  (forall e, email info = Some e -> blank e = false) /\
  (forall j, job_title info = Some j -> nonempty j = true).
Proof.
  unfold _extract_contact_information.
  pose proof (@contact_loop_results (length content) 0 content None None
                ltac:(discriminate) ltac:(discriminate)) as Hr.
  destruct (contact_loop (length content) 0 content None None) as [[c' header] email'].
  simpl in Hr. destruct Hr as [Hh He].
  destruct header as [h|]; simpl; [|discriminate].
  specialize (Hh h eq_refl).
  destruct (contact_header_shape _ Hh) as (c & h' & -> & Hc & _). simpl.
  unfold re_split. simpl. rewrite contact_separator_not_at_capital by assumption.
  destruct (split_from_first contact_separator h' [c]) as (x & xs & ->). simpl.
  destruct xs as [|h1 more]; [discriminate|]. simpl.
  intros H. injection H as <- _. simpl. repeat split.
  - exists (c :: x). split; [reflexivity|]. simpl.
    assert (Hs : is_space c = false) by char_arith. now rewrite Hs.
  - intros e E. destruct email' as [m|]; simpl in E; [|discriminate].
    destruct (nonempty m); [|discriminate]. injection E as <-.
    apply email_not_blank. now apply He.
  - intros j E. destruct (nonempty (re_sub_delete quote_pattern h1)) eqn:N; [|discriminate].
    now injection E as <-.
Qed.

(** ** Dictionaries *)

Lemma get_In (V : Type) k (d : dict V) v : get k d = Some v -> In (k, v) d.
Proof.
  induction d as [|[k' v'] d IH]; simpl; [discriminate|].
  destruct (ustr_eqb k' k) eqn:E.
  - intros H. injection H as <-. apply ustr_eqb_eq in E. subst. now left.
  - intros H. right. now apply IH.
Qed.

Lemma set_keys (V : Type) k (v : V) d :
  get k d <> None -> map fst (set k v d) = map fst d.
Proof.
  induction d as [|[k' v'] d IH]; simpl; [congruence|].
  destruct (ustr_eqb k' k); simpl; [reflexivity|]. intros H. now rewrite IH.
Qed.

Lemma set_In (V : Type) k (v : V) d k' v' :
  In (k', v') (set k v d) -> v' = v \/ In (k', v') d.
Proof.
  induction d as [|[k0 v0] d IH]; simpl.
  - intros [H|[]]. injection H as _ <-. now left.
  - destruct (ustr_eqb k0 k); simpl.
    + intros [H|H]; [injection H as _ <-; now left | now right; right].
    + intros [H|H]; [now right; left|]. destruct (IH H); auto.
Qed.

Lemma get_set_same (V : Type) k (v : V) d :
  get k d <> None -> get k (set k v d) = Some v.
Proof.
  induction d as [|[k' v'] d IH]; simpl; [congruence|].
  destruct (ustr_eqb k' k) eqn:E; simpl; rewrite E; auto.
Qed.

Lemma get_set_other (V : Type) k k' (v : V) d :
  k' <> k -> get k' (set k v d) = get k' d.
Proof.
  intros Hk. induction d as [|[k0 v0] d IH]; simpl.
  - apply ustr_eqb_neq in Hk. assert (E : ustr_eqb k k' = false).
    { apply ustr_eqb_neq. intros ->. now apply ustr_eqb_neq in Hk. }
    now rewrite E.
  - destruct (ustr_eqb k0 k) eqn:E; simpl.
    + apply ustr_eqb_eq in E. subst k0.
      assert (E : ustr_eqb k k' = false) by (apply ustr_eqb_neq; congruence).
      now rewrite E.
    + now rewrite IH.
Qed.

(** ** Aggregation *)

Lemma aggregate_step_aggregated cur m item :
  aggregated m -> aggregated (snd (aggregate_step (cur, m) item)).
Proof.
  intros [Hk Hl]. unfold aggregate_step.
  set (cur' := match section item with
               | Some s => if nonempty s then Some (strip s) else cur
               | None => cur end).
  destruct cur' as [cs|]; [|now split].
  destruct (nonempty cs && nonempty (strip (text item))) eqn:E; [|now split].
  apply andb_true_iff in E. destruct E as [_ Ht]. apply strip_not_blank in Ht.
  destruct (get cs m) as [[|x l]|] eqn:G; simpl; [| |now split].
  - split.
    + rewrite set_keys; [assumption | congruence].
    + intros k l' H. apply set_In in H. destruct H as [-> | H]; [|now apply (Hl k)].
      now constructor.
  - split.
    + rewrite set_keys; [assumption | congruence].
    + intros k l' H. apply set_In in H. destruct H as [-> | H]; [|now apply (Hl k)].
      apply get_In in G. apply Hl in G.
      change (Forall not_blank ((x :: l) ++ [strip (text item)])).
      apply Forall_app. split; [assumption | now constructor].
Qed.

Lemma aggregate_aggregated content :
  forall cur m, aggregated m -> aggregated (snd (fold_left aggregate_step content (cur, m))).
Proof.
  induction content as [|item rest IH]; intros cur m H; cbn [fold_left]; [assumption|].
  destruct (aggregate_step (cur, m) item) as [cur' m'] eqn:E.
  apply IH. change m' with (snd (cur', m')). rewrite <- E.
  now apply aggregate_step_aggregated.
Qed.

Lemma init_aggregated : aggregated empty_sections.
Proof.
  split; [reflexivity|]. intros k l H. apply in_map_iff in H.
  destruct H as (s & E & _). injection E as _ <-. constructor.
Qed.

Lemma required_dict (V : Type) (m : dict V) :
  map fst m = REQUIRED_SECTIONS ->
  exists v1 v2 v3 v4 v5 v6 v7 v8 v9 v10 v11 v12,
    m = [ (u "Name", v1); (u "Email", v2); (u "Job Title", v3);
          (u "Executive Summary", v4); (u "Technical Expertise", v5);
          (u "Functional Expertise", v6); (u "Experience", v7); (u "Mobility", v8);
          (u "Industry Sectors", v9); (u "Languages Spoken", v10);
          (u "Certifications", v11); (u "Methodologies", v12) ].
Proof.
  unfold REQUIRED_SECTIONS. intros H.
  do 12 (destruct m as [|[? ?] m]; [discriminate|]).
  destruct m; [|discriminate].
  simpl in H. injection H as -> -> -> -> -> -> -> -> -> -> -> ->. eauto 20.
Qed.

(** ** What the aggregation collects *)

Lemma aggregate_step_next cur m item :
  fst (aggregate_step (cur, m) item) = next_section cur item.
Proof.
  unfold aggregate_step, next_section.
  destruct (match section item with
            | Some s => if nonempty s then Some (strip s) else cur
            | None => cur end) as [cs|]; [|reflexivity].
  destruct (nonempty cs && nonempty (strip (text item))); [|reflexivity].
  now destruct (get cs m) as [[|? ?]|].
Qed.

Lemma aggregate_step_get cur m item s l :
  nonempty s = true -> get s m = Some l ->
  get s (snd (aggregate_step (cur, m) item)) =
  Some (l ++ (if option_ustr_eqb (next_section cur item) (Some s)
                 && nonempty (strip (text item))
              then [strip (text item)] else [])).
Proof.
  intros Hs Hg. unfold aggregate_step. fold (next_section cur item).
  destruct (next_section cur item) as [cs|]; cbn [option_ustr_eqb andb snd].
  2:{ now rewrite app_nil_r. }
  destruct (ustr_eqb cs s) eqn:E.
  - apply ustr_eqb_eq in E. subst cs. rewrite Hs, Hg. cbn [andb].
    destruct (nonempty (strip (text item))); cbn [snd].
    + destruct l as [|x l]; cbn [snd]; rewrite get_set_same by congruence; reflexivity.
    + now rewrite app_nil_r.
  - cbn [andb]. rewrite app_nil_r.
    assert (Hne : s <> cs) by (intros ->; now rewrite ustr_eqb_refl in E).
    destruct (nonempty cs && nonempty (strip (text item))); [|assumption].
    destruct (get cs m) as [[|x l']|]; cbn [snd]; try assumption;
      now rewrite get_set_other.
Qed.

(** The list that the aggregation leaves under a section name is what the
    section had, followed by the texts of the stream that belong to it, in
    the order of the stream. *)
Lemma aggregate_collects s content :
  nonempty s = true ->
  forall cur m l,
    get s m = Some l ->
    get s (snd (fold_left aggregate_step content (cur, m))) =
    Some (l ++ attributed s cur content).
Proof.
  intros Hs. induction content as [|item rest IH]; intros cur m l Hg; cbn [fold_left].
  - simpl. now rewrite app_nil_r.
  - pose proof (aggregate_step_next cur m item) as Hn.
    pose proof (@aggregate_step_get cur m item s l Hs Hg) as Hstep.
    destruct (aggregate_step (cur, m) item) as [cur' m']. cbn [fst snd] in Hn, Hstep.
    subst cur'. rewrite (IH _ _ _ Hstep). cbn [attributed].
    now rewrite <- app_assoc.
Qed.

Lemma attributed_not_blank s content :
  forall cur, Forall not_blank (attributed s cur content).
Proof.
  induction content as [|item rest IH]; intros cur; cbn [attributed]; [constructor|].
  apply Forall_app. split; [|apply IH].
  destruct (option_ustr_eqb _ _ && nonempty (strip (text item))) eqn:E; [|constructor].
  apply andb_true_iff in E. destruct E as [_ E].
  constructor; [now apply strip_not_blank | constructor].
Qed.

(** ** [_parse_profile] *)

Lemma process_section_other tbl m k v :
  get k m = Some v -> ustr_eqb k (u "Experience") = false ->
  process_section tbl (Ok m) k = Ok m.
Proof.
  unfold process_section. simpl. intros -> ->. now destruct (negb (truthy v)).
Qed.

Lemma process_section_raise tbl e k : process_section tbl (Raise e) k = Raise e.
Proof. reflexivity. Qed.

Lemma process_experience tbl m lines :
  get (u "Experience") m = Some (Lines lines) ->
  process_section tbl (Ok m) (u "Experience") =
  match lines with
  | [] => Ok m
  | _ :: _ =>
      projects <- _experience_section_helper tbl lines ;;
      Ok (set (u "Experience") (Projects projects) m)
  end.
Proof.
  unfold process_section. simpl. intros ->. now destruct lines.
Qed.

Ltac skip_section :=
  match goal with
  | |- context [process_section ?t (Ok ?m) ?k] =>
      rewrite (@process_section_other t m k _ eq_refl eq_refl)
  end.

Ltac collected_key H l :=
  match type of H with
  | get ?k ?m = Some (attributed ?k None ?rest) =>
      let G := fresh in
      assert (G : get k m = Some l) by reflexivity;
      rewrite G in H; clear G; injection H as H;
      fold (collected rest k) in H
  end.

Lemma parse_profile_inv tbl content doc :
  _parse_profile tbl content = Ok doc ->
  exists info rest x,
    _extract_contact_information content = Ok (info, rest) /\
    doc = document (assemble (profile_map info rest x)) /\
    experience_value tbl rest x.
Proof.
  unfold _parse_profile.
  destruct (_extract_contact_information content) as [[info rest]|e] eqn:Hx; [|discriminate].
  cbn [bind].
  pose proof (aggregate_aggregated rest None init_aggregated) as Ha.
  pose proof (@aggregate_collects (u "Executive Summary") rest eq_refl None empty_sections [] eq_refl) as H4.
  pose proof (@aggregate_collects (u "Technical Expertise") rest eq_refl None empty_sections [] eq_refl) as H5.
  pose proof (@aggregate_collects (u "Functional Expertise") rest eq_refl None empty_sections [] eq_refl) as H6.
  pose proof (@aggregate_collects (u "Experience") rest eq_refl None empty_sections [] eq_refl) as H7.
  pose proof (@aggregate_collects (u "Mobility") rest eq_refl None empty_sections [] eq_refl) as H8.
  pose proof (@aggregate_collects (u "Industry Sectors") rest eq_refl None empty_sections [] eq_refl) as H9.
  pose proof (@aggregate_collects (u "Languages Spoken") rest eq_refl None empty_sections [] eq_refl) as H10.
  pose proof (@aggregate_collects (u "Certifications") rest eq_refl None empty_sections [] eq_refl) as H11.
  pose proof (@aggregate_collects (u "Methodologies") rest eq_refl None empty_sections [] eq_refl) as H12.
  unfold aggregate. fold empty_sections. fold empty_sections in Ha.
  destruct (fold_left aggregate_step rest (None, empty_sections)) as [cur m1].
  cbn [snd app] in *. destruct Ha as [Hk _].
  destruct (required_dict _ Hk) as (l1 & l2 & l3 & l4 & l5 & l6 & l7 & l8 & l9 & l10 & l11 & l12 & ->).
  clear Hk. cbn [map fst snd].
  collected_key H4 l4. collected_key H5 l5. collected_key H6 l6. collected_key H7 l7.
  collected_key H8 l8. collected_key H9 l9. collected_key H10 l10.
  collected_key H11 l11. collected_key H12 l12.
  subst l4 l5 l6 l8 l9 l10 l11 l12.
  match goal with |- context [fold_left _ _ (Ok ?m)] =>
    change m with (profile_map info rest (Lines l7))
  end.
  unfold REQUIRED_SECTIONS. cbn [fold_left].
  do 6 skip_section.
  match goal with |- context [process_section _ (Ok ?m) _] =>
    rewrite (@process_experience tbl m l7 eq_refl)
  end.
  destruct l7 as [|line0 l7].
  - do 5 skip_section. cbn [bind]. intros E. injection E as <-.
    exists info, rest, (Lines []). repeat split; auto. left. auto.
  - rewrite H7.
    destruct (_experience_section_helper tbl (collected rest (u "Experience")))
      as [projects|e] eqn:Hp.
    + cbn [bind].
      match goal with |- context [process_section _ (Ok ?m) _] =>
        change m with (profile_map info rest (Projects projects))
      end.
      do 5 skip_section. cbn [bind]. intros E. injection E as <-.
      exists info, rest, (Projects projects). repeat split; auto. right. eauto.
    + cbn [bind]. rewrite !process_section_raise. discriminate.
Qed.

(** ** The contact extractor *)

Lemma remove_first_In item content x : In x (remove_first item content) -> In x content.
Proof.
  induction content as [|y rest IH]; simpl; [easy|].
  destruct (span_eqb y item); simpl; [now right|]. intros [H|H]; auto.
Qed.

Lemma contact_loop_no_header fuel :
  forall i content header email,
    (forall x, In x content -> is_contact_header x = false) ->
    snd (fst (contact_loop fuel i content header email)) = header.
Proof.
  induction fuel as [|fuel IH]; intros i content header email Hc; simpl; [reflexivity|].
  destruct (nth_error content i) as [item|] eqn:Hn; [|reflexivity].
  apply nth_error_In in Hn. specialize (Hc item Hn) as Hi.
  unfold is_contact_header in Hi. rewrite Hi.
  destruct (re_search email_pattern (text item)).
  - apply IH. intros x Hx. apply Hc. now apply remove_first_In in Hx.
  - now apply IH.
Qed.

(** Without a header fragment the extraction always raises. *)
Lemma no_header_raises content :
  existsb is_contact_header content = false ->
  _extract_contact_information content = Raise TypeError.
Proof.
  intros H. unfold _extract_contact_information.
  pose proof (@contact_loop_no_header (length content) 0 content None None) as Hh.
  destruct (contact_loop (length content) 0 content None None) as [[c' h] e].
  simpl in Hh. rewrite Hh; [reflexivity|].
  intros x Hx. destruct (is_contact_header x) eqn:E; [|reflexivity].
  assert (existsb is_contact_header content = true) by (apply existsb_exists; eauto).
  congruence.
Qed.

Lemma ascii_words_ok : alnum_table_ok ascii_words.
Proof. intros c H. discriminate. Qed.

(** ** The assembled document *)

Lemma section_entries_names k v e :
  In e (section_entries (k, v)) -> exists c, e = entry k c.
Proof.
  unfold section_entries. destruct (truthy v); [|easy].
  destruct (mem k LONGFORM_SECTIONS).
  - intros [<-|[]]. eauto.
  - intros H. apply in_map_iff in H. destruct H as (c & <- & _). eauto.
Qed.

Lemma assemble_In m e :
  In e (assemble m) -> exists s v, In (s, v) m /\ In e (section_entries (s, v)).
Proof.
  unfold assemble. intros H. apply in_flat_map in H.
  destruct H as ([s v] & H1 & H2). eauto.
Qed.

Lemma entries_named_section k v s :
  entries_named s (section_entries (k, v)) =
  if ustr_eqb k s then section_entries (k, v) else [].
Proof.
  unfold entries_named.
  assert (H : forall l, (forall e, In e l -> exists c, e = entry k c) ->
            filter (fun e => match entry_name e with
                             | Some n => ustr_eqb n s | None => false end) l =
            if ustr_eqb k s then l else []).
  { induction l as [|e l IH]; intros Hl; simpl; [now destruct (ustr_eqb k s)|].
    destruct (Hl e (or_introl eq_refl)) as (c & ->). simpl.
    rewrite IH by (intros e He; apply Hl; now right).
    now destruct (ustr_eqb k s). }
  apply H. intros e. apply section_entries_names.
Qed.

Lemma entries_named_app s a b :
  entries_named s (a ++ b) = entries_named s a ++ entries_named s b.
Proof. apply filter_app. Qed.

Lemma assemble_cons kv m : assemble (kv :: m) = section_entries kv ++ assemble m.
Proof. reflexivity. Qed.

Lemma entries_named_absent m s :
  ~ In s (map fst m) -> entries_named s (assemble m) = [].
Proof.
  induction m as [|[k v] m IH]; intros Hs; [reflexivity|].
  rewrite assemble_cons, entries_named_app, entries_named_section.
  assert (E : ustr_eqb k s = false) by (apply ustr_eqb_neq; intros ->; apply Hs; now left).
  rewrite E. simpl. apply IH. intros H. apply Hs. now right.
Qed.

(** With distinct keys, the entries under a name are those of its section. *)
Lemma entries_named_assemble m s v :
  NoDup (map fst m) -> In (s, v) m ->
  entries_named s (assemble m) = section_entries (s, v).
Proof.
  induction m as [|[k w] m IH]; intros Hnd Hin; [easy|].
  simpl in Hnd. inversion Hnd as [|? ? Hk Hnd']; subst.
  rewrite assemble_cons, entries_named_app, entries_named_section.
  destruct Hin as [E|Hin].
  - injection E as -> ->. rewrite ustr_eqb_refl.
    rewrite entries_named_absent by assumption. apply app_nil_r.
  - assert (E : ustr_eqb k s = false).
    { apply ustr_eqb_neq. intros ->. apply Hk.
      apply in_map_iff. now exists (s, v). }
    rewrite E. simpl. now apply IH.
Qed.

Lemma not_blank_nonempty t : not_blank t -> nonempty t = true.
Proof. unfold not_blank. now destruct t. Qed.

Lemma truthy_lines_all l :
  Forall not_blank l -> filter py_truthy (map PStr l) = map PStr l.
Proof.
  induction 1 as [|t l Ht _ IH]; [reflexivity|]. simpl.
  rewrite (not_blank_nonempty Ht). now rewrite IH.
Qed.

Lemma truthy_projects_all lines projects :
  Forall (project_record lines) projects -> filter py_truthy projects = projects.
Proof.
  induction 1 as [|r l Hr _ IH]; [reflexivity|].
  destruct Hr as (t & p & i & d & -> & _). simpl. now rewrite IH.
Qed.

Lemma final_map_keys n e j l4 l5 l6 x l8 l9 l10 l11 l12 :
  map fst (final_map n e j l4 l5 l6 x l8 l9 l10 l11 l12) = REQUIRED_SECTIONS.
Proof. reflexivity. Qed.

Lemma required_sections_distinct : NoDup REQUIRED_SECTIONS.
Proof.
  unfold REQUIRED_SECTIONS.
  repeat (constructor; [intros H; simpl in H;
                        repeat (destruct H as [H|H]; [discriminate H|]); exact H |]).
  constructor.
Qed.

Ltac final_map_cases H :=
  unfold final_map in H; simpl in H;
  repeat (destruct H as [H|H]; [injection H as <- <-|]); [..|contradiction].

Lemma profile_map_keys info rest x : map fst (profile_map info rest x) = REQUIRED_SECTIONS.
Proof. reflexivity. Qed.

(** The values in the map, section by section. *)
Lemma profile_map_kinds tbl info rest x s v :
  experience_value tbl rest x -> In (s, v) (profile_map info rest x) ->
  value_kind tbl info rest s v.
Proof.
  intros Fx H. unfold profile_map in H.
  final_map_cases H; unfold value_kind; cbn [ustr_eqb]; simpl; auto.
Qed.

Lemma collected_not_blank rest s : Forall not_blank (collected rest s).
Proof. apply attributed_not_blank. Qed.

Lemma section_entries_lines s l :
  Forall not_blank l -> section_entries (s, Lines l) = expected_entries s (Lines l).
Proof.
  intros Hl. destruct l as [|x l]; [reflexivity|].
  unfold section_entries. cbn [truthy items expected_entries].
  destruct (mem s LONGFORM_SECTIONS); [reflexivity|].
  rewrite (truthy_lines_all Hl). now rewrite map_map.
Qed.

Lemma section_entries_contact s o :
  mem s LONGFORM_SECTIONS = true ->
  section_entries (s, Contact o) = expected_entries s (Contact o).
Proof.
  intros Hs. unfold section_entries. rewrite Hs.
  destruct o as [t|]; [|reflexivity]. simpl. now destruct (nonempty t).
Qed.

Lemma section_entries_expected tbl info rest s v :
  In s REQUIRED_SECTIONS -> value_kind tbl info rest s v ->
  section_entries (s, v) = expected_entries s v.
Proof.
  intros Hs Hk. unfold REQUIRED_SECTIONS in Hs. simpl in Hs.
  repeat (destruct Hs as [<-|Hs]); try contradiction;
    unfold value_kind in Hk; simpl in Hk.
  1-3: subst v; now apply section_entries_contact.
  all: try (subst v; apply section_entries_lines; apply collected_not_blank).
  destruct Hk as [[_ ->] | (projects & Hp & ->)]; [reflexivity|].
  apply experience_section_helper_records in Hp.
  destruct projects as [|r projects]; [reflexivity|].
  unfold section_entries. cbn [truthy items expected_entries].
  simpl mem. cbv beta iota. now rewrite (truthy_projects_all Hp).
Qed.

Lemma sample_profile_parsed tbl : _parse_profile tbl sample_profile = Ok sample_document.
Proof. vm_compute. reflexivity. Qed.

(** ** Blank texts *)

Lemma contact_entry s o e :
  mem s LONGFORM_SECTIONS = true -> In e (section_entries (s, Contact o)) ->
  exists t, o = Some t /\ nonempty t = true /\ e = entry s (PStr t).
Proof.
  intros Hs. unfold section_entries. rewrite Hs.
  destruct o as [t|]; simpl; [|easy].
  destruct (nonempty t) eqn:E; [|easy]. intros [<-|[]]. eauto.
Qed.

Lemma longform_entry s l e :
  mem s LONGFORM_SECTIONS = true -> In e (section_entries (s, Lines l)) ->
  e = entry s (PList (map PStr l)).
Proof.
  intros Hs. unfold section_entries. rewrite Hs.
  destruct l; simpl; [easy|]. now intros [<-|[]].
Qed.

Lemma bullet_entry s l e :
  mem s LONGFORM_SECTIONS = false -> In e (section_entries (s, Lines l)) ->
  exists t, In t l /\ e = entry s (PStr t).
Proof.
  intros Hs. unfold section_entries. rewrite Hs.
  destruct (truthy (Lines l)); [|easy]. intros H.
  apply in_map_iff in H. destruct H as (c & <- & H).
  apply filter_In in H. destruct H as [H _]. simpl in H.
  apply in_map_iff in H. destruct H as (t & <- & H). eauto.
Qed.

Lemma project_entry s projects e :
  mem s LONGFORM_SECTIONS = false -> In e (section_entries (s, Projects projects)) ->
  exists r, In r projects /\ e = entry s r.
Proof.
  intros Hs. unfold section_entries. rewrite Hs.
  destruct (truthy (Projects projects)); [|easy]. intros H.
  apply in_map_iff in H. destruct H as (c & <- & H).
  apply filter_In in H. destruct H as [H _]. eauto.
Qed.

Lemma bullet_entry_clean s l e :
  mem s LONGFORM_SECTIONS = false -> Forall not_blank l ->
  In e (section_entries (s, Lines l)) -> exists c, e = entry s c /\ clean_content s c.
Proof.
  intros Hs Hl He. destruct (bullet_entry _ _ _ Hs He) as (t & Ht & ->).
  rewrite Forall_forall in Hl. specialize (Hl t Ht).
  eexists. split; [reflexivity|]. left. exists t.
  auto using not_blank_nonempty.
Qed.

Lemma longform_entry_clean s l e :
  mem s LONGFORM_SECTIONS = true -> Forall not_blank l ->
  In e (section_entries (s, Lines l)) -> exists c, e = entry s c /\ clean_content s c.
Proof.
  intros Hs Hl He. rewrite (longform_entry _ _ _ Hs He).
  eexists. split; [reflexivity|]. right. left. eauto.
Qed.

(** ** Hints and the current section *)

Lemma read_span_tags cur content t :
  (forall s, cur = Some s -> In s REQUIRED_SECTIONS) ->
  Forall recognized_hint content ->
  (forall s, fst (read_span (cur, content) t) = Some s -> In s REQUIRED_SECTIONS)
  /\ Forall recognized_hint (snd (read_span (cur, content) t)).
Proof.
  intros Hc Hl. unfold read_span.
  destruct (mem (strip t) REQUIRED_SECTIONS) eqn:E; cbn [fst snd].
  - split; [|assumption]. intros s Hs. injection Hs as <-. now apply mem_In.
  - split; [assumption|]. apply Forall_app. split; [assumption|].
    constructor; [|constructor]. exact Hc.
Qed.

(** The reader tags a fragment with None or with one of the twelve names. *)
Lemma read_spans_tags spans : Forall recognized_hint (snd (read_spans spans)).
Proof.
  unfold read_spans.
  assert (H : forall st,
            (forall s, fst st = Some s -> In s REQUIRED_SECTIONS) ->
            Forall recognized_hint (snd st) ->
            Forall recognized_hint (snd (fold_left read_span spans st))).
  { induction spans as [|t spans IH]; intros [cur content] Hc Hl; [assumption|].
    cbn [fold_left]. cbn [fst snd] in Hc, Hl.
    destruct (read_span_tags t Hc Hl). now apply IH. }
  apply H; cbn [fst snd]; [discriminate | constructor].
Qed.

(** ** Stripping, once more *)

Lemma lstrip_idem s : lstrip (lstrip s) = lstrip s.
Proof.
  destruct (lstrip_head s) as [->|(c & r & -> & Hc)]; [reflexivity|].
  simpl. now rewrite Hc.
Qed.

Lemma lstrip_rstrip_solid c r : is_space c = false -> lstrip (rstrip (c :: r)) = rstrip (c :: r).
Proof.
  intros Hc. unfold rstrip. simpl rev.
  rewrite (lstrip_app_solid (rev r) c [] Hc).
  rewrite rev_app_distr. simpl. now rewrite Hc.
Qed.

Lemma rstrip_idem s : rstrip (rstrip s) = rstrip s.
Proof. unfold rstrip. now rewrite rev_involutive, lstrip_idem. Qed.

Lemma lstrip_strip s : lstrip (strip s) = strip s.
Proof.
  unfold strip. destruct (lstrip_head s) as [->|(c & r & -> & Hc)]; [reflexivity|].
  now apply lstrip_rstrip_solid.
Qed.

(** Stripping twice is stripping once. *)
Lemma strip_idem s : strip (strip s) = strip s.
Proof. unfold strip at 1. rewrite lstrip_strip. unfold strip. apply rstrip_idem. Qed.

Lemma lstrip_Forall (P : char -> Prop) s : Forall P s -> Forall P (lstrip s).
Proof.
  induction 1 as [|c s Hc Hs IH]; simpl; [constructor|].
  destruct (is_space c); [assumption | now constructor].
Qed.

(** Stripping only takes characters away. *)
Lemma strip_Forall (P : char -> Prop) s : Forall P s -> Forall P (strip s).
Proof.
  intros H. unfold strip, rstrip.
  apply Forall_rev, lstrip_Forall, Forall_rev, lstrip_Forall, H.
Qed.

(** ** The reader and the tags *)

Lemma read_spans_texts spans :
  forall st,
    map text (snd (fold_left read_span spans st)) =
    map text (snd st)
    ++ filter (fun t => negb (mem t REQUIRED_SECTIONS)) (map strip spans).
Proof.
  induction spans as [|t spans IH]; intros [cur content]; cbn [fold_left map filter].
  - now rewrite app_nil_r.
  - rewrite IH. unfold read_span.
    destruct (mem (strip t) REQUIRED_SECTIONS); cbn [snd negb]; [reflexivity|].
    rewrite map_app. cbn [map text]. now rewrite <- app_assoc.
Qed.

Lemma reader_texts doc :
  map text (_read_pdf_with_metadata doc) =
  filter (fun t => negb (mem t REQUIRED_SECTIONS)) (map strip (spans_of_doc doc)).
Proof. unfold _read_pdf_with_metadata, read_spans. now rewrite read_spans_texts. Qed.

Lemma read_spans_headed spans :
  forall st,
    headed (snd st) -> (fst st = None -> Forall untagged (snd st)) ->
    headed (snd (fold_left read_span spans st)).
Proof.
  induction spans as [|t spans IH]; intros [cur content] Hh Hn; [assumption|].
  cbn [fold_left]. apply IH; unfold read_span;
    destruct (mem (strip t) REQUIRED_SECTIONS); cbn [fst snd] in *; try assumption.
  - destruct cur as [c|].
    + destruct Hh as (pre & post & -> & Hpre & Hpost).
      exists pre, (post ++ [{| section := Some c; text := strip t |}]).
      rewrite app_assoc. split; [reflexivity|]. split; [assumption|].
      apply Forall_app. split; [assumption|]. constructor; [|constructor].
      unfold untagged. simpl. discriminate.
    + exists (content ++ [{| section := None; text := strip t |}]), [].
      rewrite app_nil_r. split; [reflexivity|]. split; [|constructor].
      apply Forall_app. split; [now apply Hn|]. constructor; [reflexivity|constructor].
  - discriminate.
  - intros ->. apply Forall_app. split; [now apply Hn|].
    constructor; [reflexivity|constructor].
Qed.

(** The reader leaves a fragment without a tag only before the first
    heading. *)
Lemma reader_headed doc : headed (_read_pdf_with_metadata doc).
Proof.
  unfold _read_pdf_with_metadata, read_spans. apply read_spans_headed; cbn [fst snd].
  - exists [], []. repeat split; constructor.
  - constructor.
Qed.

Lemma required_stripped h : In h REQUIRED_SECTIONS -> strip h = h /\ nonempty h = true.
Proof.
  unfold REQUIRED_SECTIONS. simpl.
  intros H. repeat (destruct H as [<-|H]; [split; vm_compute; reflexivity|]). contradiction.
Qed.

Lemma required_key s : In s REQUIRED_SECTIONS -> get s empty_sections = Some [].
Proof.
  unfold REQUIRED_SECTIONS. simpl.
  intros H. repeat (destruct H as [<-|H]; [reflexivity|]). contradiction.
Qed.

Lemma attributed_tagged_all s content :
  Forall recognized_hint content -> Forall (fun item => ~ untagged item) content ->
  forall cur, attributed s cur content = tagged s content.
Proof.
  unfold tagged. induction content as [|x rest IH]; intros Hr Ht cur; [reflexivity|].
  inversion Hr as [|? ? Hx Hr']; subst. inversion Ht as [|? ? Hx' Ht']; subst.
  cbn [attributed filter]. unfold next_section.
  destruct (section x) as [h|] eqn:E; [|now contradiction Hx'].
  destruct (required_stripped (Hx h E)) as [-> ->].
  rewrite (IH Hr' Ht'). cbn [option_ustr_eqb].
  destruct (ustr_eqb h s); cbn [andb map filter app]; [|reflexivity].
  now destruct (nonempty (strip (text x))).
Qed.

(** On a stream whose hints are names of sections and whose fragments
    without a hint come first, the current section of the aggregation is
    the hint of the fragment. *)
Lemma attributed_tagged s content :
  Forall recognized_hint content -> headed content ->
  attributed s None content = tagged s content.
Proof.
  intros Hr (pre & post & -> & Hpre & Hpost).
  apply Forall_app in Hr. destruct Hr as [_ Hr].
  induction pre as [|x pre IH].
  - now apply attributed_tagged_all.
  - inversion Hpre as [|? ? Hx Hpre']; subst. unfold untagged in Hx.
    cbn [app attributed]. unfold next_section, tagged. rewrite Hx.
    cbn [option_ustr_eqb andb app filter]. rewrite Hx. cbn [option_ustr_eqb].
    now apply IH.
Qed.

(** ** The segmenter, as a whole *)

(** What the loop adds to [project_info] and [project_details]: the headers
    of the header lines, and groups of lines that together are the detail
    lines, each group but the last one with a line in it. *)
Lemma segment_loop_structure tbl lines :
  forall info details contents st,
    segment_loop tbl lines info details contents = Ok st ->
    exists headers groups,
      fst st = info ++ headers
      /\ headers_for (header_lines tbl lines) headers
      /\ snd st = details ++ groups
      /\ groups <> []
      /\ flat_map group_list groups = group_list contents ++ detail_lines tbl lines
      /\ length groups <= S (length headers)
      /\ Forall (fun d => truthy_lines d = true) (removelast groups).
Proof.
  unfold headers_for, header_lines, detail_lines.
  induction lines as [|line rest IH]; intros info details contents st; cbn [segment_loop].
  - intros E. injection E as <-. cbn [fst snd filter].
    exists [], [contents]. rewrite !app_nil_r.
    repeat split; try discriminate; cbn; rewrite ?app_nil_r; auto; constructor.
  - cbn [filter]. destruct (is_project_header tbl line) eqn:Hh; cbn [negb].
    + destruct (truthy_lines contents) eqn:Ht;
        (destruct (_experienceHeaderHelper line) as [v|e] eqn:Ev; cbn [bind]; [|discriminate]);
        intros E; apply IH in E;
        destruct E as (headers & groups & E1 & Hhd & E2 & Hne & Hf & Hl & Hr).
      * exists (v :: headers), (contents :: groups).
        split; [now rewrite E1, <- app_assoc|]. split; [now constructor|].
        split; [now rewrite E2, <- app_assoc|]. split; [discriminate|].
        split; [cbn [flat_map]; now rewrite Hf|]. split; [cbn [length]; lia|].
        destruct groups as [|g groups]; [congruence|].
        cbn [removelast]. constructor; assumption.
      * exists (v :: headers), groups.
        split; [now rewrite E1, <- app_assoc|]. split; [now constructor|].
        repeat split; auto.
    + intros E. apply IH in E.
      destruct E as (headers & groups & E1 & Hhd & E2 & Hne & Hf & Hl & Hr).
      exists headers, groups. repeat split; auto.
      rewrite Hf. destruct contents as [[|x l]|]; cbn [group_list app]; try reflexivity.
      now rewrite <- app_assoc.
Qed.

(** ** The records of the segmenter *)

Lemma headers_for_In lines headers v :
  headers_for lines headers -> In v headers ->
  exists line, In line lines /\ _experienceHeaderHelper line = Ok v.
Proof.
  unfold headers_for. induction 1 as [|line v' lines headers Hv _ IH]; intros Hin; [easy|].
  destruct Hin as [<-|Hin].
  - exists line. split; [now left | assumption].
  - destruct (IH Hin) as (l & Hl & E). exists l. split; [now right | assumption].
Qed.

(** The lines of one group are a run of the lines of all groups. *)
Lemma group_run (groups : list (option (list ustr))) d :
  In d groups ->
  exists before after, flat_map group_list groups = before ++ group_list d ++ after.
Proof.
  intros Hin. apply in_split in Hin. destruct Hin as (g1 & g2 & ->).
  exists (flat_map group_list g1), (flat_map group_list g2).
  rewrite flat_map_app. reflexivity.
Qed.

(** None is among the groups that the loop adds only when the buffer was
    None at the start and no detail line follows. *)
Lemma segment_loop_null tbl lines :
  forall info details contents st,
    segment_loop tbl lines info details contents = Ok st ->
    exists groups,
      snd st = details ++ groups
      /\ (In None groups -> contents = None /\ detail_lines tbl lines = []).
Proof.
  unfold detail_lines.
  induction lines as [|line rest IH]; intros info details contents st; cbn [segment_loop].
  - intros E. injection E as <-. exists [contents]. split; [reflexivity|].
    intros [H|[]]. now split.
  - cbn [filter]. destruct (is_project_header tbl line) eqn:Hh; cbn [negb].
    + destruct (truthy_lines contents) eqn:Ht;
        (destruct (_experienceHeaderHelper line) as [v|e]; cbn [bind]; [|discriminate]);
        intros E; apply IH in E; destruct E as (groups & E & Hn).
      * exists (contents :: groups). rewrite E, <- app_assoc. split; [reflexivity|].
        intros [H|H]; [subst contents; discriminate Ht|].
        destruct (Hn H) as [Hc _]. discriminate Hc.
      * exists groups. split; assumption.
    + intros E. apply IH in E. destruct E as (groups & E & Hn).
      exists groups. split; [assumption|]. intros H. destruct (Hn H) as [Hc _].
      destruct contents as [[|x l]|]; discriminate Hc.
Qed.


(** ** The current section, along a stream *)

Lemma attributed_app s a :
  forall b cur,
    attributed s cur (a ++ b) = attributed s cur a ++ attributed s (section_after a cur) b.
Proof.
  unfold section_after.
  induction a as [|x a IH]; intros b cur; [reflexivity|].
  cbn [app attributed fold_left]. now rewrite IH, <- app_assoc.
Qed.

Lemma aggregate_cursor content :
  forall cur m, fst (fold_left aggregate_step content (cur, m)) = section_after content cur.
Proof.
  unfold section_after.
  induction content as [|x content IH]; intros cur m; [reflexivity|].
  cbn [fold_left].
  destruct (aggregate_step (cur, m) x) as [cur' m'] eqn:E.
  rewrite IH. f_equal. rewrite <- (aggregate_step_next cur m x). now rewrite E.
Qed.

(** On a stream whose hints are names of sections, the current section is
    None or the name of a section. *)
Lemma section_after_recognized content :
  Forall recognized_hint content ->
  forall cur, (forall a, cur = Some a -> In a REQUIRED_SECTIONS) ->
    forall a, section_after content cur = Some a -> In a REQUIRED_SECTIONS.
Proof.
  unfold section_after.
  induction 1 as [|x content Hx _ IH]; intros cur Hc a; cbn [fold_left]; [apply Hc|].
  apply IH. intros b. unfold next_section.
  destruct (section x) as [h|] eqn:E; [|apply Hc].
  destruct (nonempty h); [|apply Hc].
  intros Hb. injection Hb as <-.
  destruct (required_stripped (Hx h E)) as [-> _]. now apply Hx.
Qed.

Lemma tagged_app s a b : tagged s (a ++ b) = tagged s a ++ tagged s b.
Proof. unfold tagged. now rewrite filter_app, map_app, filter_app. Qed.

Lemma read_spans_acc spans :
  forall cur content,
    fold_left read_span spans (cur, content) =
    (fst (fold_left read_span spans (cur, [])),
     content ++ snd (fold_left read_span spans (cur, []))).
Proof.
  induction spans as [|t spans IH]; intros cur content; cbn [fold_left].
  - cbn. now rewrite app_nil_r.
  - unfold read_span at 2 4 6. destruct (mem (strip t) REQUIRED_SECTIONS).
    + apply IH.
    + rewrite IH. rewrite (IH cur ([] ++ _)). cbn [fst snd app].
      now rewrite <- app_assoc.
Qed.

(** What the reader makes of a document around a span that is not a
    heading. *)
Lemma read_spans_split before span_text after :
  mem (strip span_text) REQUIRED_SECTIONS = false ->
  let active := fst (read_spans before) in
  snd (read_spans (before ++ span_text :: after)) =
  snd (read_spans before)
  ++ {| section := active; text := strip span_text |}
  :: snd (fold_left read_span after (active, [])).
Proof.
  intros Hm. cbn zeta. unfold read_spans. rewrite fold_left_app. cbn [fold_left].
  destruct (fold_left read_span before (None, [])) as [cur content].
  cbn [fst snd]. unfold read_span at 2. rewrite Hm.
  rewrite read_spans_acc. cbn [snd]. now rewrite <- app_assoc.
Qed.

Lemma read_spans_cursor spans :
  forall st, (forall a, fst st = Some a -> In a REQUIRED_SECTIONS) ->
    forall a, fst (fold_left read_span spans st) = Some a -> In a REQUIRED_SECTIONS.
Proof.
  induction spans as [|t spans IH]; intros [cur content] Hc; [exact Hc|].
  cbn [fold_left]. apply IH. unfold read_span.
  destruct (mem (strip t) REQUIRED_SECTIONS) eqn:E; cbn [fst]; [|exact Hc].
  intros a Ha. injection Ha as <-. now apply mem_In.
Qed.

(** * The properties of the specification *)

(** C1 (code defect).  An email fragment that directly follows the header
    fragment is not removed: the loop deletes the header from the list it is
    iterating over, the iterator steps over the fragment that moved into the
    header's place, and that fragment reaches the Executive Summary of the
    final document while the email field stays empty. *)
Theorem email_after_header_is_skipped :
  _extract_contact_information adjacent_contact =
    Ok (smith_info None, [ span summary (u "a.smith@example.com") ])
  /\ forall tbl,
       _parse_profile tbl adjacent_contact =
       Ok (document
             [ entry (u "Name") (PStr (u "A. Smith"));
               entry (u "Job Title") (PStr (u "Senior Consultant"));
               entry (u "Executive Summary") (PList [PStr (u "a.smith@example.com")]) ]).
Proof. split; [|intros tbl]; vm_compute; reflexivity. Qed.

(** What the loop does keep: whatever it removes, the fragments that match
    neither pattern all stay, in their order. *)
Lemma other_fragments_keep_their_order content info rest :
  _extract_contact_information content = Ok (info, rest) ->
  filter kept rest = filter kept content.
Proof.
  unfold _extract_contact_information.
  pose proof (contact_loop_keeps (length content) 0 content None None) as H.
  destruct (contact_loop (length content) 0 content None None) as [[c' h] e].
  simpl in H. destruct (option_map _ _) as [[|h0 [|h1 more]]|]; simpl; try discriminate.
  intros E. now injection E as _ <-.
Qed.

(** C2 (code defect).  A detail line before the first header is not left
    out: it is flushed as the first group of details and [zip] pairs it with
    the first header, so that every header receives the lines that precede
    it and the lines after the last header are lost. *)
Theorem leading_detail_shifts_the_pairing tbl :
  _experience_section_helper tbl leading_detail =
  Ok [ project (header_dict (u "Alpha") (u "Lead") (u "Finance"), Some [u "intro"]);
       project (header_dict (u "Beta") (u "Analyst") (u "Retail"), Some [u "did X"]) ].
Proof. vm_compute. reflexivity. Qed.

(** The same defect on two headers in a row: the second header is dropped
    and its detail line goes to the first. *)
Lemma header_without_details_is_dropped tbl :
  _experience_section_helper tbl
    [ u "Alpha - Lead - Finance"; u "Beta - Analyst - Retail"; u "did Y" ] =
  Ok [ project (header_dict (u "Alpha") (u "Lead") (u "Finance"), Some [u "did Y"]) ].
Proof. vm_compute. reflexivity. Qed.

(** The example of the specification holds: each header gets the line
    after it. *)
Lemma two_projects_segmented tbl :
  _experience_section_helper tbl two_projects =
  Ok [ project (header_dict (u "Alpha") (u "Lead") (u "Finance"), Some [u "did X"]);
       project (header_dict (u "Beta") (u "Analyst") (u "Retail"), Some [u "did Y"]) ].
Proof. vm_compute. reflexivity. Qed.

(** C3 (code defect).  On a stream without a header fragment the extraction
    does not return a ContactInfo with empty fields: [re.sub] is called on
    None and raises TypeError, and [_parse_profile] raises with it. *)
Theorem missing_header_raises :
  _extract_contact_information headerless = Raise TypeError
  /\ forall tbl, _parse_profile tbl headerless = Raise TypeError.
Proof. split; [|intros tbl]; vm_compute; reflexivity. Qed.

(** C4, as stated, fails: a record has the two keys 'project_header' and
    'project_details', the three header fields are one level down. *)
Lemma project_record_is_nested :
  _experience_section_helper ascii_words [ u "Alpha - Lead - Finance"; u "did X" ] =
    Ok [ PDict [ (u "project_header",
                  PDict [ (u "project_title", PStr (u "Alpha"));
                          (u "project_position", PStr (u "Lead"));
                          (u "project_industry", PStr (u "Finance")) ]);
                 (u "project_details", PList [PStr (u "did X")]) ] ]
  /\ _experience_section_helper ascii_words [ u "Alpha - Lead - Finance" ] =
    Ok [ PDict [ (u "project_header", header_dict (u "Alpha") (u "Lead") (u "Finance"));
                 (u "project_details", PNone) ] ].
Proof. split; vm_compute; reflexivity. Qed.

(** C4, amended.  Every record that the segmenter produces has exactly the
    keys 'project_header' and 'project_details'.  The header is a record of
    project_title, project_position and project_industry, each a string
    that is not blank: it is what the header helper makes of one of the
    header lines of the input.  When the details of a record hold lines,
    they are an ordered list of strings: a run of consecutive lines, in the
    order of the input, among the lines of the input that are not header
    lines.  (How a record without detail lines is represented is not part
    of the statement.) *)
Theorem project_record_shape tbl lines projects :
  _experience_section_helper tbl lines = Ok projects ->
  Forall (record_on tbl lines) projects.
Proof.
  unfold _experience_section_helper.
  destruct (segment_loop tbl lines [] [] None) as [st|e] eqn:E; [|discriminate].
  cbn [bind]. intros H. injection H as <-.
  apply segment_loop_structure in E.
  destruct E as (headers & groups & E1 & Hhd & E2 & _ & Hf & _ & _).
  cbn [app group_list] in *. rewrite E1, E2.
  apply Forall_forall. intros r Hr.
  apply in_map_iff in Hr. destruct Hr as ([v d] & <- & Hin).
  pose proof (in_combine_l _ _ _ _ Hin) as Hv.
  pose proof (in_combine_r _ _ _ _ Hin) as Hd.
  destruct (@headers_for_In _ _ v Hhd Hv) as (line & Hline & Ev).
  destruct (header_helper_shape _ Ev) as (t & p & i & -> & Bt & Bp & Bi).
  exists line, t, p, i, d. unfold project. cbn [fst snd].
  repeat split; try assumption.
  rewrite <- Hf. now apply group_run.
Qed.

Lemma project_record_shape_witness :
  _experience_section_helper ascii_words two_projects = Ok two_project_records
  /\ Forall (record_on ascii_words two_projects) two_project_records.
Proof.
  split; [vm_compute; reflexivity|].
  apply (@project_record_shape ascii_words two_projects). vm_compute. reflexivity.
Defined.

(** Where the details of a record are None, the input has no detail line
    at all. *)
Lemma null_details_only_without_detail_lines tbl lines projects h :
  _experience_section_helper tbl lines = Ok projects ->
  In (project (h, None)) projects -> detail_lines tbl lines = [].
Proof.
  unfold _experience_section_helper.
  destruct (segment_loop tbl lines [] [] None) as [st|e] eqn:E; [|discriminate].
  cbn [bind]. intros H. injection H as <-. intros Hin.
  apply segment_loop_null in E. destruct E as (groups & E & Hn). cbn [app] in E.
  apply in_map_iff in Hin. destruct Hin as ([v d] & Hp & Hin).
  unfold project in Hp. cbn [fst snd] in Hp. injection Hp as _ Hd.
  destruct d as [l|]; [discriminate Hd|].
  apply in_combine_r in Hin. rewrite E in Hin. now destruct (Hn Hin).
Qed.

(** C5, as stated, fails: of two email-bearing fragments that the loop both
    visits, the second one provides the email field. *)
Lemma later_email_overwrites :
  re_search email_pattern (u "first@example.com") = Some (u "first@example.com")
  /\ _extract_contact_information two_emails =
     Ok (smith_info (Some (u "second@example.com")),
         [ span None (u "Contact"); span None (u "or") ]).
Proof. split; vm_compute; reflexivity. Qed.

(** C5, amended.  When the stream has a header fragment and no fragment
    that matches a pattern directly follows another one, the extraction
    returns without error, the email field is the match of the last
    email-bearing fragment in stream order, and every fragment that matches
    a pattern is removed. *)
Theorem last_email_is_used content :
  spaced content = true -> existsb is_contact_header content = true ->
  exists info,
    _extract_contact_information content = Ok (info, filter kept content)
    /\ email info = last_email_match content.
Proof.
  intros Hsp Hex.
  destruct (extract_spaced _ Hsp Hex) as (h & h0 & h1 & more & _ & _ & ->).
  eexists. split; reflexivity.
Qed.

Lemma last_email_is_used_witness :
  spaced two_emails = true /\ existsb is_contact_header two_emails = true /\
  exists info,
    _extract_contact_information two_emails = Ok (info, filter kept two_emails)
    /\ email info = last_email_match two_emails.
Proof.
  split; [vm_compute; reflexivity|]. split; [vm_compute; reflexivity|].
  apply (@last_email_is_used two_emails); vm_compute; reflexivity.
Defined.

(** C6, as stated, fails: the content of the Name and Job Title entries is
    the bare string, not a list of one element. *)
Lemma contact_content_is_a_string :
  _parse_profile ascii_words [ span summary smith_header; span summary (u "Trusted advisor") ] =
  Ok (document
        [ entry (u "Name") (PStr (u "A. Smith"));
          entry (u "Job Title") (PStr (u "Senior Consultant"));
          entry (u "Executive Summary") (PList [PStr (u "Trusted advisor")]) ]).
Proof. vm_compute. reflexivity. Qed.

(** C6, amended.  The document is assembled from a map over the twelve
    section names that holds the contact fields under Name, Email and Job
    Title, the project records under Experience, and under every other name
    the lines collected for it from the fragments that the contact
    extraction left.  What the document holds under a name is: for a
    bullet-style section, one entry per retained line, each with that line,
    in order, and for Experience one entry per project record; for
    Executive Summary and Mobility one entry with the whole ordered list of
    retained lines; for Name, Email and Job Title one entry with the bare
    string; and nothing for a section without content. *)
Theorem assembled_entries tbl content doc :
  _parse_profile tbl content = Ok doc ->
  exists info rest sections_map,
    _extract_contact_information content = Ok (info, rest)
    /\ doc = document (assemble sections_map)
    /\ map fst sections_map = REQUIRED_SECTIONS
    /\ forall s v,
         In (s, v) sections_map ->
         value_kind tbl info rest s v
         /\ entries_named s (assemble sections_map) = expected_entries s v.
Proof.
  intros H. apply parse_profile_inv in H.
  destruct H as (info & rest & x & Hx & -> & Fx).
  exists info, rest, (profile_map info rest x).
  split; [assumption|]. split; [reflexivity|]. split; [reflexivity|].
  intros s v Hin.
  pose proof (@profile_map_kinds tbl info rest x s v Fx Hin) as Hk.
  split; [assumption|].
  rewrite (@entries_named_assemble _ s v).
  - apply section_entries_expected with (tbl := tbl) (info := info) (rest := rest);
      [|assumption].
    rewrite <- (profile_map_keys info rest x).
    apply in_map_iff. now exists (s, v).
  - rewrite profile_map_keys. apply required_sections_distinct.
  - assumption.
Qed.

Lemma assembled_entries_witness :
  _parse_profile ascii_words sample_profile = Ok sample_document /\
  exists info rest sections_map,
    _extract_contact_information sample_profile = Ok (info, rest)
    /\ sample_document = document (assemble sections_map)
    /\ map fst sections_map = REQUIRED_SECTIONS
    /\ forall s v,
         In (s, v) sections_map ->
         value_kind ascii_words info rest s v
         /\ entries_named s (assemble sections_map) = expected_entries s v.
Proof.
  split; [vm_compute; reflexivity|].
  apply (@assembled_entries ascii_words sample_profile). vm_compute. reflexivity.
Defined.

(** C7.  A text that is not one of the twelve names never changes the
    current section, and it goes to the section that is current, or
    nowhere when there is none yet.  In the reader: a span whose stripped
    text is not a name leaves the reader's current section as it is and
    becomes a fragment tagged with it.  In the aggregation, on a stream
    whose hints are None or names of sections, as the reader produces them
    and as the Span type has them: a fragment whose hint is not one of the
    twelve names leaves the current section as it is, which is None or one
    of the twelve names, and its stripped text, when not empty, is appended
    to the list of that section and of no other, and to no list when there
    is no current section.  For the two together: of the spans of a
    document, the text of a span that is not a name ends, in the map of the
    aggregation, in the list of the section of the last heading before it,
    between the texts that come before and after it, and in no list when no
    heading comes before it.  No step of the reader or of the aggregation
    raises. *)
Theorem unrecognized_heading_keeps_the_section
    (current_section : option ustr) (content : list Span) (span_text : ustr)
    (pre : list Span) (item : Span) (s : ustr)
    (doc : Doc) (before after : list ustr) :
  (mem (strip span_text) REQUIRED_SECTIONS = false ->
   read_span (current_section, content) span_text
   = (current_section,
      content ++ [{| section := current_section; text := strip span_text |}]))
  /\ (Forall recognized_hint (pre ++ [item]) ->
      (forall h, section item = Some h -> ~ In h REQUIRED_SECTIONS) ->
      In s REQUIRED_SECTIONS ->
      let active := fst (aggregate pre empty_sections) in
      (forall a, active = Some a -> In a REQUIRED_SECTIONS)
      /\ fst (aggregate (pre ++ [item]) empty_sections) = active
      /\ exists l,
           get s (snd (aggregate pre empty_sections)) = Some l
           /\ get s (snd (aggregate (pre ++ [item]) empty_sections))
              = Some (l ++ contribution s active (strip (text item))))
  /\ (spans_of_doc doc = before ++ span_text :: after ->
      mem (strip span_text) REQUIRED_SECTIONS = false ->
      In s REQUIRED_SECTIONS ->
      let active := fst (read_spans before) in
      (forall a, active = Some a -> In a REQUIRED_SECTIONS)
      /\ fst (read_spans (before ++ [span_text])) = active
      /\ get s (snd (aggregate (_read_pdf_with_metadata doc) empty_sections))
         = Some (tagged s (snd (read_spans before))
                 ++ contribution s active (strip span_text)
                 ++ tagged s (snd (fold_left read_span after (active, []))))).
Proof.
  split; [|split].
  - intros Hm. unfold read_span. now rewrite Hm.
  - intros Hr Hh Hs. cbn zeta. unfold aggregate.
    apply Forall_app in Hr. destruct Hr as [Hpre Hitem].
    pose proof (Forall_inv Hitem) as Hi.
    assert (Hnone : section item = None).
    { destruct (section item) as [h|] eqn:E; [|reflexivity].
      exfalso. apply (Hh h eq_refl). now apply Hi. }
    rewrite !aggregate_cursor.
    destruct (required_stripped Hs) as [_ Hne].
    rewrite (@aggregate_collects s pre Hne None empty_sections [] (required_key Hs)).
    rewrite (@aggregate_collects s (pre ++ [item]) Hne None empty_sections [] (required_key Hs)).
    cbn [app]. split; [|split].
    + apply section_after_recognized; [assumption | discriminate].
    + unfold section_after. rewrite fold_left_app. cbn [fold_left].
      unfold next_section. now rewrite Hnone.
    + eexists. split; [reflexivity|]. f_equal.
      rewrite attributed_app. f_equal. cbn [attributed].
      unfold next_section, contribution. rewrite Hnone. apply app_nil_r.
  - intros Hd Hm Hs. cbn zeta. split; [|split].
    + unfold read_spans. apply read_spans_cursor. cbn. discriminate.
    + unfold read_spans. rewrite fold_left_app. cbn [fold_left].
      destruct (fold_left read_span before (None, [])) as [cur c0].
      unfold read_span. now rewrite Hm.
    + unfold aggregate.
      destruct (required_stripped Hs) as [_ Hne].
      rewrite (@aggregate_collects s (_read_pdf_with_metadata doc) Hne None empty_sections []
                 (required_key Hs)).
      cbn [app]. f_equal.
      rewrite attributed_tagged; [|apply read_spans_tags | apply reader_headed].
      unfold _read_pdf_with_metadata. rewrite Hd.
      rewrite (@read_spans_split before span_text after Hm).
      rewrite tagged_app. f_equal.
      change (?x :: ?l) with ([x] ++ l). rewrite tagged_app. f_equal.
      unfold tagged, contribution. cbn [filter section text map].
      destruct (option_ustr_eqb (fst (read_spans before)) (Some s));
        cbn [andb map filter text]; [|reflexivity].
      rewrite strip_idem. now destruct (nonempty (strip span_text)).
Qed.

Lemma unrecognized_heading_keeps_the_section_witness :
  mem (strip (u " Foo ")) REQUIRED_SECTIONS = false
  /\ Forall recognized_hint ([ span summary (u "a") ] ++ [ span None (u "c") ])
  /\ (forall h, section (span None (u "c")) = Some h -> ~ In h REQUIRED_SECTIONS)
  /\ In (u "Executive Summary") REQUIRED_SECTIONS
  /\ spans_of_doc foo_pdf = [ u "Executive Summary"; u "a" ] ++ u " Foo " :: [ u "c" ]
  /\ read_span (summary, []) (u " Foo ")
     = (summary, [] ++ [{| section := summary; text := strip (u " Foo ") |}])
  /\ (let active := fst (aggregate [ span summary (u "a") ] empty_sections) in
      (forall a, active = Some a -> In a REQUIRED_SECTIONS)
      /\ fst (aggregate ([ span summary (u "a") ] ++ [ span None (u "c") ]) empty_sections)
         = active
      /\ exists l,
           get (u "Executive Summary") (snd (aggregate [ span summary (u "a") ] empty_sections))
           = Some l
           /\ get (u "Executive Summary")
                (snd (aggregate ([ span summary (u "a") ] ++ [ span None (u "c") ])
                        empty_sections))
              = Some (l ++ contribution (u "Executive Summary") active
                             (strip (text (span None (u "c"))))))
  /\ (let active := fst (read_spans [ u "Executive Summary"; u "a" ]) in
      (forall a, active = Some a -> In a REQUIRED_SECTIONS)
      /\ fst (read_spans ([ u "Executive Summary"; u "a" ] ++ [ u " Foo " ])) = active
      /\ get (u "Executive Summary")
           (snd (aggregate (_read_pdf_with_metadata foo_pdf) empty_sections))
         = Some (tagged (u "Executive Summary")
                   (snd (read_spans [ u "Executive Summary"; u "a" ]))
                 ++ contribution (u "Executive Summary") active (strip (u " Foo "))
                 ++ tagged (u "Executive Summary")
                      (snd (fold_left read_span [ u "c" ] (active, []))))).
Proof.
  assert (H1 : mem (strip (u " Foo ")) REQUIRED_SECTIONS = false) by (vm_compute; reflexivity).
  assert (H4 : In (u "Executive Summary") REQUIRED_SECTIONS)
    by (apply mem_In; vm_compute; reflexivity).
  assert (H2 : Forall recognized_hint ([ span summary (u "a") ] ++ [ span None (u "c") ])).
  { cbn [app]. constructor; [|constructor; [|constructor]].
    - intros s' E. cbn in E. injection E as <-. exact H4.
    - intros s' E. discriminate E. }
  assert (H3 : forall h, section (span None (u "c")) = Some h -> ~ In h REQUIRED_SECTIONS).
  { intros h E. discriminate E. }
  assert (H5 : spans_of_doc foo_pdf
               = [ u "Executive Summary"; u "a" ] ++ u " Foo " :: [ u "c" ])
    by (vm_compute; reflexivity).
  destruct (@unrecognized_heading_keeps_the_section summary [] (u " Foo ")
              [ span summary (u "a") ] (span None (u "c")) (u "Executive Summary")
              foo_pdf [ u "Executive Summary"; u "a" ] [ u "c" ]) as (R & A & P).
  split; [exact H1|]. split; [exact H2|]. split; [exact H3|]. split; [exact H4|].
  split; [exact H5|]. split; [exact (R H1)|]. split; [exact (A H2 H3 H4)|].
  exact (P H5 H1 H4).
Defined.

(** The test against the twelve names is the reader's (line 101); the
    aggregation relies on it.  A hint that is not a name, which the reader
    never writes, would become the current section, and the texts under it
    would go to no list. *)
Lemma untyped_hint_becomes_current :
  fst (aggregate_step (summary, empty_sections) (span (Some (u "Foo")) (u "b")))
    = Some (u "Foo")
  /\ _parse_profile ascii_words
       [ span summary smith_header; span summary (u "a");
         span (Some (u "Foo")) (u "b"); span None (u "c") ] =
     Ok (document
           [ entry (u "Name") (PStr (u "A. Smith"));
             entry (u "Job Title") (PStr (u "Senior Consultant"));
             entry (u "Executive Summary") (PList [PStr (u "a")]) ]).
Proof. split; vm_compute; reflexivity. Qed.



(** A line with two fields is not a header line: the segmenter reads it
    as a detail line and never hands it to the header helper, which would
    raise IndexError on it. *)
Lemma two_field_line_is_a_detail_line :
  is_project_header ascii_words (u "Alpha - Lead") = false
  /\ _experience_section_helper ascii_words [ u "Alpha - Lead"; u "did X" ] = Ok []
  /\ _experienceHeaderHelper (u "Alpha - Lead") = Raise IndexError.
Proof. repeat split; vm_compute; reflexivity. Qed.

(** C9, as stated, fails: a header fragment whose quoted phrase is a
    single space yields a Job Title entry whose content is that space, the
    very text of the whitespace-only fragment that precedes it. *)
Lemma blank_job_title_is_emitted :
  blank (u " ") = true
  /\ _parse_profile ascii_words
       [ span summary (u " "); span summary (u "A. Smith - " ++ dq ++ u " " ++ dq) ] =
     Ok (document
           [ entry (u "Name") (PStr (u "A. Smith")); entry (u "Job Title") (PStr (u " ")) ]).
Proof. split; vm_compute; reflexivity. Qed.

(** C9, amended.  No blank text reaches a list: every list-valued content
    holds only lines that are neither empty nor whitespace-only, and so do
    the details of every project record, whose header fields are not blank
    either; every string-valued content is not empty, and outside Job Title
    it is not whitespace-only. *)
Theorem retained_texts_are_not_blank tbl content doc :
  _parse_profile tbl content = Ok doc ->
  exists entries,
    doc = document entries
    /\ Forall (fun e => exists s c, e = entry s c /\ clean_content s c) entries.
Proof.
  intros H. apply parse_profile_inv in H.
  destruct H as (info & rest & x & Hx & -> & Fx).
  apply extract_fields in Hx. destruct Hx as ((n & Hn & Bn) & Be & Bj).
  eexists. split; [reflexivity|]. apply Forall_forall. intros e He.
  apply assemble_In in He. destruct He as (s & v & Hin & He).
  exists s. unfold profile_map in Hin. final_map_cases Hin.
  - apply contact_entry in He; [|reflexivity].
    destruct He as (t & E & Nt & ->). eexists. split; [reflexivity|].
    left. exists t. repeat split; auto. intros _. congruence.
  - apply contact_entry in He; [|reflexivity].
    destruct He as (t & E & Nt & ->). eexists. split; [reflexivity|].
    left. exists t. repeat split; auto. intros _. now apply Be.
  - apply contact_entry in He; [|reflexivity].
    destruct He as (t & E & Nt & ->). eexists. split; [reflexivity|].
    left. exists t. repeat split; auto. intros Hs. now contradiction Hs.
  - apply longform_entry_clean in He; auto using collected_not_blank.
  - apply bullet_entry_clean in He; auto using collected_not_blank.
  - apply bullet_entry_clean in He; auto using collected_not_blank.
  - destruct Fx as [[_ ->] | (projects & Hp & ->)]; [easy|].
    apply project_entry in He; [|reflexivity]. destruct He as (r & Hr & ->).
    apply experience_section_helper_records in Hp.
    rewrite Forall_forall in Hp. destruct (Hp r Hr) as (t & p & i & d & -> & ? & ? & ? & Hd).
    eexists. split; [reflexivity|]. right. right. exists t, p, i, d.
    repeat split; auto. intros l E. apply Forall_forall. intros y Hy.
    pose proof (collected_not_blank rest (u "Experience")) as Hl.
    rewrite Forall_forall in Hl. apply Hl. now apply (Hd l E).
  - apply longform_entry_clean in He; auto using collected_not_blank.
  - apply bullet_entry_clean in He; auto using collected_not_blank.
  - apply bullet_entry_clean in He; auto using collected_not_blank.
  - apply bullet_entry_clean in He; auto using collected_not_blank.
  - apply bullet_entry_clean in He; auto using collected_not_blank.
Qed.

Lemma retained_texts_are_not_blank_witness :
  _parse_profile ascii_words sample_profile = Ok sample_document /\
  exists entries,
    sample_document = document entries
    /\ Forall (fun e => exists s c, e = entry s c /\ clean_content s c) entries.
Proof.
  split; [vm_compute; reflexivity|].
  apply (@retained_texts_are_not_blank ascii_words sample_profile). vm_compute. reflexivity.
Defined.

(** C10.  Every entry of the document's sections list carries one of the
    twelve names of [REQUIRED_SECTIONS]. *)
Theorem section_names_are_required tbl content doc :
  _parse_profile tbl content = Ok doc ->
  exists entries,
    doc = document entries
    /\ Forall (fun e => exists s c, e = entry s c /\ In s REQUIRED_SECTIONS) entries.
Proof.
  intros H. apply parse_profile_inv in H.
  destruct H as (info & rest & x & _ & -> & _).
  eexists. split; [reflexivity|]. apply Forall_forall. intros e He.
  apply assemble_In in He. destruct He as (s & v & Hin & He).
  apply section_entries_names in He. destruct He as (c & ->).
  exists s, c. split; [reflexivity|].
  rewrite <- (profile_map_keys info rest x).
  apply in_map_iff. now exists (s, v).
Qed.

Lemma section_names_are_required_witness :
  _parse_profile ascii_words sample_profile = Ok sample_document /\
  exists entries,
    sample_document = document entries
    /\ Forall (fun e => exists s c, e = entry s c /\ In s REQUIRED_SECTIONS) entries.
Proof.
  split; [vm_compute; reflexivity|].
  apply (@section_names_are_required ascii_words sample_profile). vm_compute. reflexivity.
Defined.

(** * Further properties of the code *)

(** ** Subsequences *)

Lemma subseq_refl (A : Type) (l : list A) : subseq l l.
Proof. induction l; constructor; assumption. Qed.

Lemma subseq_trans (A : Type) (l1 l2 l3 : list A) :
  subseq l1 l2 -> subseq l2 l3 -> subseq l1 l3.
Proof.
  intros H12 H23. revert l1 H12.
  induction H23 as [|x l2 l3 H IH|x l2 l3 H IH]; intros l1 H12.
  - assumption.
  - inversion H12; subst; constructor; now apply IH.
  - constructor. now apply IH.
Qed.

Lemma subseq_length (A : Type) (l1 l2 : list A) : subseq l1 l2 -> length l1 <= length l2.
Proof. induction 1; simpl; lia. Qed.

Lemma subseq_Forall (A : Type) (P : A -> Prop) (l1 l2 : list A) :
  subseq l1 l2 -> Forall P l2 -> Forall P l1.
Proof.
  induction 1 as [|x l1 l2 H IH|x l1 l2 H IH]; intros HP; [constructor| |];
    inversion HP; subst; [constructor|]; auto.
Qed.

Lemma subseq_app_inv (A : Type) (a b : list A) :
  forall l, subseq l (a ++ b) -> exists la lb, l = la ++ lb /\ subseq la a /\ subseq lb b.
Proof.
  induction a as [|x a IH]; intros l H; cbn [app] in H.
  - exists [], l. repeat split; [constructor | assumption].
  - inversion H as [|y l1 l2 H1|y l1 l2 H1]; subst.
    + destruct (IH _ H1) as (la & lb & -> & Ha & Hb).
      exists (x :: la), lb. repeat split; [now constructor | assumption].
    + destruct (IH _ H1) as (la & lb & -> & Ha & Hb).
      exists la, lb. repeat split; [now constructor | assumption].
Qed.

Lemma headed_subseq rest content : subseq rest content -> headed content -> headed rest.
Proof.
  intros Hs (pre & post & -> & Hpre & Hpost).
  apply subseq_app_inv in Hs. destruct Hs as (la & lb & -> & Ha & Hb).
  exists la, lb. split; [reflexivity|]. split; eapply subseq_Forall; eassumption.
Qed.

(** ** The reader *)

(** X1.  The reader keeps the stripped texts of the spans, in the order of
    the document, except those that are the name of a section: no fragment
    of its result has whitespace at its ends or is a heading. *)
Theorem reader_keeps_the_other_spans doc :
  map text (_read_pdf_with_metadata doc) =
    filter (fun t => negb (mem t REQUIRED_SECTIONS)) (map strip (spans_of_doc doc))
  /\ Forall (fun item => strip (text item) = text item
                         /\ mem (text item) REQUIRED_SECTIONS = false)
       (_read_pdf_with_metadata doc).
Proof.
  pose proof (reader_texts doc) as H. split; [exact H|].
  apply Forall_forall. intros item Hin.
  assert (Ht : In (text item) (map text (_read_pdf_with_metadata doc))) by now apply in_map.
  rewrite H in Ht. apply filter_In in Ht. destruct Ht as [Ht Hm].
  apply in_map_iff in Ht. destruct Ht as (t & E & _).
  split; [rewrite <- E; apply strip_idem | exact (proj1 (negb_true_iff _) Hm)].
Qed.

(** X2.  The reader and the aggregation agree on the sections: from the
    fragments of the reader the aggregation collects, for each of the
    twelve names, the stripped texts, not empty, of the fragments that the
    reader tagged with that name, in their order. *)
Theorem aggregation_follows_the_tags doc s :
  In s REQUIRED_SECTIONS ->
  get s (snd (aggregate (_read_pdf_with_metadata doc) empty_sections))
  = Some (tagged s (_read_pdf_with_metadata doc)).
Proof.
  intros Hs. unfold aggregate.
  rewrite (@aggregate_collects s (_read_pdf_with_metadata doc)) with (l := []).
  - cbn [app]. f_equal. apply attributed_tagged; [apply read_spans_tags | apply reader_headed].
  - now apply required_stripped.
  - now apply required_key.
Qed.

Lemma aggregation_follows_the_tags_witness :
  In (u "Technical Expertise") REQUIRED_SECTIONS
  /\ get (u "Technical Expertise")
       (snd (aggregate (_read_pdf_with_metadata sample_pdf) empty_sections))
     = Some (tagged (u "Technical Expertise") (_read_pdf_with_metadata sample_pdf)).
Proof.
  assert (H : In (u "Technical Expertise") REQUIRED_SECTIONS)
    by (apply mem_In; vm_compute; reflexivity).
  split; [exact H|].
  exact (@aggregation_follows_the_tags sample_pdf (u "Technical Expertise") H).
Defined.

(** ** The scan of the contact extractor, once more *)

Lemma remove_first_subseq item content : subseq (remove_first item content) content.
Proof.
  induction content as [|x rest IH]; simpl; [constructor|].
  destruct (span_eqb x item).
  - constructor. apply subseq_refl.
  - now constructor.
Qed.

Lemma remove_first_shorter item content :
  In item content -> S (length (remove_first item content)) = length content.
Proof.
  induction content as [|x rest IH]; simpl; [easy|].
  destruct (span_eqb x item) eqn:E; [reflexivity|].
  intros [->|H]; [now rewrite span_eqb_refl in E|]. simpl. now rewrite IH.
Qed.

(** The loop only takes fragments away, and at least one when it records
    a header. *)
Lemma contact_loop_subseq fuel :
  forall i content header email,
    let r := contact_loop fuel i content header email in
    subseq (fst (fst r)) content
    /\ (snd (fst r) = header \/ length (fst (fst r)) < length content).
Proof.
  induction fuel as [|fuel IH]; intros i content header email; cbn [contact_loop].
  - split; [apply subseq_refl | now left].
  - destruct (nth_error content i) as [item|] eqn:En;
      [|split; [apply subseq_refl | now left]].
    assert (Hin : In item content) by (eapply nth_error_In; eassumption).
    pose proof (remove_first_subseq item content) as Hs.
    pose proof (remove_first_shorter item content Hin) as Hl.
    destruct (matches header_pattern (text item)).
    + destruct (IH (S i) (remove_first item content) (Some (text item)) email) as [H1 H2].
      split; [eapply subseq_trans; eassumption|]. right.
      apply subseq_length in H1. lia.
    + destruct (re_search email_pattern (text item)) as [found|].
      * destruct (IH (S i) (remove_first item content) header (Some found)) as [H1 H2].
        split; [eapply subseq_trans; eassumption|]. right.
        apply subseq_length in H1. lia.
      * apply IH.
Qed.

(** Where the loop takes [header] and [email] from: the text of a header
    fragment of the stream, and the match of a fragment that is not a
    header fragment. *)
Lemma contact_loop_sources fuel :
  forall (P : ustr -> Prop) (Q : ustr -> Prop) i content header email,
    (forall item, In item content -> is_contact_header item = true -> P (text item)) ->
    (forall item found, In item content -> is_contact_header item = false ->
                        email_of item = Some found -> Q found) ->
    (forall a, header = Some a -> P a) ->
    (forall a, email = Some a -> Q a) ->
    let r := contact_loop fuel i content header email in
    (forall a, snd (fst r) = Some a -> P a) /\ (forall a, snd r = Some a -> Q a).
Proof.
  induction fuel as [|fuel IH]; intros P Q i content header email HP HQ Hh He;
    cbn [contact_loop]; [now split|].
  destruct (nth_error content i) as [item|] eqn:En; [|now split].
  assert (Hin : In item content) by (eapply nth_error_In; eassumption).
  destruct (matches header_pattern (text item)) eqn:Hm.
  - apply IH; try assumption.
    + intros x Hx. apply HP. eapply remove_first_In; eassumption.
    + intros x f Hx. apply HQ. eapply remove_first_In; eassumption.
    + intros a E. injection E as <-. now apply HP.
  - destruct (re_search email_pattern (text item)) as [found|] eqn:Hs.
    + apply IH; try assumption.
      * intros x Hx. apply HP. eapply remove_first_In; eassumption.
      * intros x f Hx. apply HQ. eapply remove_first_In; eassumption.
      * intros a E. injection E as <-. now apply (HQ item).
    + now apply IH.
Qed.

(** The two outcomes of the extraction, by what the scan leaves in [header]. *)
Lemma extract_cases content :
  let r := contact_loop (length content) 0 content None None in
  match snd (fst r) with
  | None => _extract_contact_information content = Raise TypeError
  | Some h =>
      matches header_pattern h = true /\
      exists h0 h1 more,
        re_split contact_separator h = h0 :: h1 :: more /\
        _extract_contact_information content =
        Ok ({| name := Some h0; email := truthy_str (snd r);
               job_title := truthy_str (Some (re_sub_delete quote_pattern h1)) |},
            fst (fst r))
  end.
Proof.
  unfold _extract_contact_information.
  pose proof (@contact_loop_results (length content) 0 content None None
                ltac:(discriminate) ltac:(discriminate)) as Hr.
  destruct (contact_loop (length content) 0 content None None) as [[c' header] email'].
  cbn [fst snd] in *. destruct Hr as [Hh _].
  destruct header as [h|]; [|reflexivity].
  specialize (Hh h eq_refl). split; [assumption|].
  destruct (contact_header_shape _ Hh) as (c & h' & -> & Hc & Hd).
  destruct (@split_at_dash (c :: h') ltac:(simpl; rewrite Hd; apply orb_true_r) [])
    as (h0 & h1 & more & Hs).
  exists h0, h1, more. unfold re_split. split; [exact Hs|].
  cbn [truthy_str nonempty option_map]. unfold re_split. rewrite Hs. reflexivity.
Qed.

Lemma extract_raises_type_error content e :
  _extract_contact_information content = Raise e -> e = TypeError.
Proof.
  pose proof (extract_cases content) as H. cbn zeta in H.
  destruct (snd (fst (contact_loop (length content) 0 content None None))) as [h|].
  - destruct H as (_ & h0 & h1 & more & _ & ->). discriminate.
  - rewrite H. congruence.
Qed.

Lemma extract_subseq content info rest :
  _extract_contact_information content = Ok (info, rest) ->
  subseq rest content /\ length rest < length content.
Proof.
  intros E. pose proof (extract_cases content) as H. cbn zeta in H.
  pose proof (contact_loop_subseq (length content) 0 content None None) as Hs.
  cbn zeta in Hs. destruct Hs as [Hs Hl].
  destruct (snd (fst (contact_loop (length content) 0 content None None))) as [h|].
  - destruct H as (_ & h0 & h1 & more & _ & H). rewrite H in E. injection E as _ <-.
    split; [assumption|]. now destruct Hl.
  - rewrite H in E. discriminate.
Qed.

(** ** The pieces of the contact header *)

Lemma split_no_dash s :
  forall skip cur, no_dash cur ->
    Forall no_dash (split_from contact_separator s skip cur).
Proof.
  unfold no_dash.
  induction s as [|c s IH]; intros skip cur Hcur; cbn [split_from].
  - constructor; [|constructor]. apply Forall_rev. assumption.
  - destruct skip as [|n]; [|now apply IH].
    destruct (re_match contact_separator (c :: s)) as [[|n]|] eqn:E.
    + now apply contact_separator_consumes in E.
    + constructor; [now apply Forall_rev|]. apply IH. constructor.
    + apply IH. constructor; [|assumption].
      destruct (is_dash c) eqn:Hc; [|reflexivity].
      now apply (contact_separator_at_dash c s) in Hc.
Qed.

(** The first piece of a split is the beginning of the string. *)
Lemma split_first_prefix r s :
  forall skip cur p ps,
    split_from r s skip cur = p :: ps -> exists tail, rev cur ++ skipn skip s = p ++ tail.
Proof.
  induction s as [|c s IH]; intros skip cur p ps; cbn [split_from].
  - intros H. injection H as <- _. exists []. now rewrite skipn_nil.
  - destruct skip as [|n]; [|apply IH].
    destruct (re_match r (c :: s)) as [[|n]|].
    + intros H. apply IH in H. destruct H as (tail & H). exists tail.
      rewrite <- H. cbn [rev skipn]. now rewrite <- app_assoc.
    + intros H. injection H as <- _. now exists (c :: s).
    + intros H. apply IH in H. destruct H as (tail & H). exists tail.
      rewrite <- H. cbn [rev skipn]. now rewrite <- app_assoc.
Qed.

Lemma quote_pattern_match c s :
  re_match quote_pattern (c :: s) = if is_quote c then Some 1 else None.
Proof.
  unfold re_match, quote_pattern. cbn [bt].
  destruct (is_quote c); [|reflexivity]. f_equal. cbn [length]. lia.
Qed.

(** The [re.sub] on the job title takes the quote characters out. *)
Lemma sub_delete_quote s :
  re_sub_delete quote_pattern s = filter (fun c => negb (is_quote c)) s.
Proof.
  unfold re_sub_delete. induction s as [|c s IH]; [reflexivity|].
  cbn [sub_delete_from filter]. rewrite quote_pattern_match.
  destruct (is_quote c); cbn [negb]; now rewrite IH.
Qed.

Lemma lang_plus_chr g p s :
  lang (Plus g (Chr p)) s -> s <> [] /\ Forall (fun c => p c = true) s.
Proof.
  intros H. split.
  - apply (lang_nonempty H). reflexivity.
  - eapply lang_chars; [exact H|]. simpl. auto.
Qed.

Lemma email_pattern_shape e : lang email_pattern e -> email_shape e.
Proof.
  intros H. unfold email_pattern in H.
  apply lang_seq_inv in H. destruct H as (l & s1 & -> & Hl & H).
  apply lang_seq_inv in H. destruct H as (a & s2 & -> & Ha & H).
  apply lang_seq_inv in H. destruct H as (d & s3 & -> & Hd & H).
  apply lang_seq_inv in H. destruct H as (o & t & -> & Ho & Ht).
  apply lang_chr_inv in Ha. destruct Ha as (ca & -> & Hca).
  apply lang_chr_inv in Ho. destruct Ho as (co & -> & Hco).
  apply N.eqb_eq in Hca, Hco. subst ca co.
  apply lang_plus_chr in Hl, Hd. destruct Hl as [Hl1 Hl2]. destruct Hd as [Hd1 Hd2].
  exists l, d, t. repeat split; try assumption.
  - unfold AtLeast2 in Ht. apply lang_seq_inv in Ht. destruct Ht as (t1 & t2 & -> & H1 & H2).
    apply lang_chr_inv in H1. destruct H1 as (c & -> & _).
    apply lang_plus_chr in H2. destruct H2 as [H2 _].
    destruct t2; [congruence|]. simpl. lia.
  - eapply lang_chars; [exact Ht|]. simpl. auto.
Qed.

(** A match of [re.search] is a piece of the string. *)
Lemma re_search_substring r s found :
  re_search r s = Some found -> exists pre post, s = pre ++ found ++ post.
Proof.
  induction s as [|c s IH]; cbn [re_search].
  - destruct (re_match r []) eqn:E; [|discriminate]. intros H. injection H as <-.
    exists [], []. now destruct n.
  - destruct (re_match r (c :: s)) eqn:E.
    + intros H. injection H as <-.
      apply re_match_sound in E. destruct E as (p & rest & E & _ & ->).
      exists [], rest. rewrite E at 2. rewrite E.
      now rewrite firstn_app, Nat.sub_diag, firstn_all, app_nil_r.
    + intros H. apply IH in H. destruct H as (pre & post & ->). now exists (c :: pre), post.
Qed.

(** X3.  Contact extraction raises nothing but TypeError, and it does
    raise TypeError whenever no fragment matches the header pattern; in
    particular the split of a header always yields the two pieces that
    the indexing needs. *)
Theorem extraction_raises_only_type_error content :
  (forall e, _extract_contact_information content = Raise e -> e = TypeError)
  /\ (existsb is_contact_header content = false ->
      _extract_contact_information content = Raise TypeError).
Proof.
  split; [intros e; apply extract_raises_type_error | apply no_header_raises].
Qed.

Lemma extraction_raises_only_type_error_witness :
  existsb is_contact_header headerless = false
  /\ _extract_contact_information headerless = Raise TypeError.
Proof.
  assert (H : existsb is_contact_header headerless = false) by (vm_compute; reflexivity).
  split; [exact H|].
  exact (proj2 (@extraction_raises_only_type_error headerless) H).
Defined.

(** X4.  When the extraction returns, the stream it leaves is the input
    with some fragments taken out, at least one; the fragments that match
    neither pattern are all still there, in their order. *)
Theorem extraction_shrinks_the_stream content info rest :
  _extract_contact_information content = Ok (info, rest) ->
  subseq rest content
  /\ filter kept rest = filter kept content
  /\ length rest < length content.
Proof.
  intros E. destruct (extract_subseq _ E) as [Hs Hl].
  split; [assumption|]. split; [|assumption].
  pose proof (extract_cases content) as H. cbn zeta in H.
  pose proof (contact_loop_keeps (length content) 0 content None None) as Hk.
  destruct (snd (fst (contact_loop (length content) 0 content None None))) as [h|].
  - destruct H as (_ & h0 & h1 & more & _ & H). rewrite H in E. now injection E as _ <-.
  - rewrite H in E. discriminate.
Qed.

Lemma extraction_shrinks_the_stream_witness :
  _extract_contact_information two_emails
    = Ok (smith_info (Some (u "second@example.com")), two_emails_rest)
  /\ subseq two_emails_rest two_emails
  /\ filter kept two_emails_rest = filter kept two_emails
  /\ length two_emails_rest < length two_emails.
Proof.
  split; [vm_compute; reflexivity|].
  apply (@extraction_shrinks_the_stream two_emails (smith_info (Some (u "second@example.com")))).
  vm_compute. reflexivity.
Defined.

(** X5.  When the extraction returns, the name is the beginning of the
    text of a header fragment of the stream: it starts with a capital
    letter and has no dash.  The job title, when there is one, has no dash
    and no double quote. *)
Theorem name_and_job_title_shape content info rest :
  _extract_contact_information content = Ok (info, rest) ->
  (exists n item tail,
      name info = Some n
      /\ In item content /\ is_contact_header item = true /\ text item = n ++ tail
      /\ (exists c n', n = c :: n' /\ is_upper c = true)
      /\ no_dash n)
  /\ (forall j, job_title info = Some j -> no_dash j /\ no_quote j).
Proof.
  intros E. pose proof (extract_cases content) as H. cbn zeta in H.
  pose proof (@contact_loop_sources (length content)
                (fun h => exists item, In item content /\ is_contact_header item = true
                                       /\ text item = h)
                (fun _ => True) 0 content None None) as Hsrc.
  cbn zeta in Hsrc.
  destruct Hsrc as [Hsrc _]; try (intros; eauto; discriminate).
  destruct (snd (fst (contact_loop (length content) 0 content None None))) as [h|];
    [|rewrite H in E; discriminate].
  destruct (Hsrc h eq_refl) as (item & Hin & Hhd & Ht).
  destruct H as (Hm & h0 & h1 & more & Hs & H). rewrite H in E. injection E as <- _.
  cbn [name job_title].
  assert (Hd : Forall no_dash (h0 :: h1 :: more)).
  { rewrite <- Hs. apply split_no_dash. constructor. }
  pose proof (Forall_inv Hd) as Hd0. pose proof (Forall_inv (Forall_inv_tail Hd)) as Hd1.
  split.
  - exists h0, item.
    destruct (@split_first_prefix contact_separator h 0 [] h0 (h1 :: more) Hs) as (tail & Hp).
    cbn [rev skipn app] in Hp. exists tail. split; [reflexivity|].
    split; [assumption|]. split; [assumption|]. split; [congruence|]. split; [|assumption].
    destruct (contact_header_shape _ Hm) as (c & h' & -> & Hc & _).
    unfold re_split in Hs. cbn [split_from] in Hs.
    rewrite contact_separator_not_at_capital in Hs by assumption.
    destruct (split_from_first contact_separator h' [c]) as (x & xs & Hx).
    rewrite Hx in Hs. injection Hs as <- _. now exists c, x.
  - intros j Hj. unfold truthy_str in Hj.
    destruct (nonempty (re_sub_delete quote_pattern h1)); [|discriminate].
    injection Hj as <-. rewrite sub_delete_quote. unfold no_dash, no_quote in *.
    split; apply Forall_forall; intros c Hin'; apply filter_In in Hin'; destruct Hin' as [Hin' Hq].
    + rewrite Forall_forall in Hd1. now apply Hd1.
    + now apply negb_true_iff.
Qed.

Lemma name_and_job_title_shape_witness :
  _extract_contact_information two_emails
    = Ok (smith_info (Some (u "second@example.com")), two_emails_rest)
  /\ (exists n item tail,
         name (smith_info (Some (u "second@example.com"))) = Some n
         /\ In item two_emails /\ is_contact_header item = true /\ text item = n ++ tail
         /\ (exists c n', n = c :: n' /\ is_upper c = true)
         /\ no_dash n)
  /\ (forall j, job_title (smith_info (Some (u "second@example.com"))) = Some j ->
                no_dash j /\ no_quote j).
Proof.
  split; [vm_compute; reflexivity|].
  apply (@name_and_job_title_shape two_emails (smith_info (Some (u "second@example.com")))
           two_emails_rest).
  vm_compute. reflexivity.
Defined.

(** X6.  When the extraction returns an email address, it is the leftmost
    match of the email pattern in a fragment of the stream that is not a
    header fragment, a piece of the text of that fragment, of the shape
    local@domain.tld. *)
Theorem email_comes_from_a_fragment content info rest e :
  _extract_contact_information content = Ok (info, rest) -> email info = Some e ->
  email_shape e
  /\ exists item pre post,
       In item content /\ is_contact_header item = false
       /\ email_of item = Some e /\ text item = pre ++ e ++ post.
Proof.
  intros E He. pose proof (extract_cases content) as H. cbn zeta in H.
  pose proof (@contact_loop_sources (length content) (fun _ => True)
                (fun found => exists item, In item content /\ is_contact_header item = false
                                           /\ email_of item = Some found)
                0 content None None) as Hsrc.
  cbn zeta in Hsrc.
  destruct Hsrc as [_ Hsrc]; try (intros; eauto; discriminate).
  destruct (snd (fst (contact_loop (length content) 0 content None None))) as [h|];
    [|rewrite H in E; discriminate].
  destruct H as (_ & h0 & h1 & more & _ & H). rewrite H in E. injection E as <- _.
  cbn [email] in He. unfold truthy_str in He.
  destruct (snd (contact_loop (length content) 0 content None None)) as [m|]; [|discriminate].
  destruct (nonempty m); [|discriminate]. injection He as <-.
  destruct (Hsrc m eq_refl) as (item & Hin & Hhd & Hm).
  split.
  - apply email_pattern_shape. unfold email_of in Hm. now apply re_search_sound in Hm.
  - unfold email_of in Hm. destruct (re_search_substring _ _ Hm) as (pre & post & Ht).
    exists item, pre, post. auto.
Qed.

Lemma email_comes_from_a_fragment_witness :
  _extract_contact_information two_emails
    = Ok (smith_info (Some (u "second@example.com")), two_emails_rest)
  /\ email (smith_info (Some (u "second@example.com"))) = Some (u "second@example.com")
  /\ email_shape (u "second@example.com")
  /\ exists item pre post,
       In item two_emails /\ is_contact_header item = false
       /\ email_of item = Some (u "second@example.com")
       /\ text item = pre ++ u "second@example.com" ++ post.
Proof.
  split; [vm_compute; reflexivity|]. split; [reflexivity|].
  apply (@email_comes_from_a_fragment two_emails
           (smith_info (Some (u "second@example.com"))) two_emails_rest).
  - vm_compute. reflexivity.
  - reflexivity.
Defined.

(** X7.  When the stream has a header fragment and no fragment that
    matches a pattern directly follows another one, name and job title
    come from the last header fragment of the stream: the name is the first
    piece of its text, the job title the second piece without its quotes;
    a later header fragment overwrites an earlier one. *)
Theorem last_header_is_used content :
  spaced content = true -> existsb is_contact_header content = true ->
  exists h h0 h1 more info,
    last_header_text content = Some h
    /\ re_split contact_separator h = h0 :: h1 :: more
    /\ _extract_contact_information content = Ok (info, filter kept content)
    /\ name info = Some h0
    /\ job_title info = truthy_str (Some (re_sub_delete quote_pattern h1)).
Proof.
  intros Hsp Hex.
  destruct (extract_spaced _ Hsp Hex) as (h & h0 & h1 & more & Hh & Hs & E).
  exists h, h0, h1, more. eexists. repeat split; eassumption || reflexivity.
Qed.

Lemma last_header_is_used_witness :
  spaced two_headers = true
  /\ existsb is_contact_header two_headers = true
  /\ _extract_contact_information two_headers
     = Ok ({| name := Some (u "B. Jones"); email := None; job_title := Some (u "Partner") |},
           [ span None (u "and") ])
  /\ exists h h0 h1 more info,
       last_header_text two_headers = Some h
       /\ re_split contact_separator h = h0 :: h1 :: more
       /\ _extract_contact_information two_headers = Ok (info, filter kept two_headers)
       /\ name info = Some h0
       /\ job_title info = truthy_str (Some (re_sub_delete quote_pattern h1)).
Proof.
  split; [vm_compute; reflexivity|]. split; [vm_compute; reflexivity|].
  split; [vm_compute; reflexivity|].
  apply (@last_header_is_used two_headers); vm_compute; reflexivity.
Defined.

(** X8.  On the fragments of the reader, what [_parse_profile] collects
    for a section after the contact extraction is the stripped texts, not
    empty, of the remaining fragments that the reader tagged with that
    section: taking fragments out does not move a text to another
    section. *)
Theorem pipeline_sections_follow_the_tags doc info rest s :
  _extract_contact_information (_read_pdf_with_metadata doc) = Ok (info, rest) ->
  In s REQUIRED_SECTIONS ->
  subseq rest (_read_pdf_with_metadata doc)
  /\ get s (snd (aggregate rest empty_sections)) = Some (tagged s rest).
Proof.
  intros E Hs. destruct (extract_subseq _ E) as [Hsub _]. split; [assumption|].
  unfold aggregate.
  rewrite (@aggregate_collects s rest) with (l := []).
  - cbn [app]. f_equal. apply attributed_tagged.
    + eapply subseq_Forall; [eassumption | apply read_spans_tags].
    + eapply headed_subseq; [eassumption | apply reader_headed].
  - now apply required_stripped.
  - now apply required_key.
Qed.

Lemma pipeline_sections_follow_the_tags_witness :
  _extract_contact_information (_read_pdf_with_metadata sample_pdf)
    = Ok (smith_info None, sample_pdf_rest)
  /\ In (u "Technical Expertise") REQUIRED_SECTIONS
  /\ subseq sample_pdf_rest (_read_pdf_with_metadata sample_pdf)
  /\ get (u "Technical Expertise") (snd (aggregate sample_pdf_rest empty_sections))
     = Some (tagged (u "Technical Expertise") sample_pdf_rest).
Proof.
  assert (H : In (u "Technical Expertise") REQUIRED_SECTIONS)
    by (apply mem_In; vm_compute; reflexivity).
  split; [vm_compute; reflexivity|]. split; [exact H|].
  apply (@pipeline_sections_follow_the_tags sample_pdf (smith_info None) sample_pdf_rest
           (u "Technical Expertise")); [vm_compute; reflexivity | exact H].
Defined.

(** ** [_parse_profile], as a whole *)

(** The function is the contact extraction followed by the assembly of the
    map of collected lines, in which the lines of Experience, if there are
    any, are replaced by the records of the segmenter. *)
Lemma parse_profile_eq tbl content :
  _parse_profile tbl content =
  (extracted <- _extract_contact_information content ;;
   match collected (snd extracted) (u "Experience") with
   | [] => Ok (document (assemble (profile_map (fst extracted) (snd extracted) (Lines []))))
   | _ :: _ =>
       projects <- _experience_section_helper tbl (collected (snd extracted) (u "Experience")) ;;
       Ok (document (assemble (profile_map (fst extracted) (snd extracted) (Projects projects))))
   end).
Proof.
  unfold _parse_profile.
  destruct (_extract_contact_information content) as [[info rest]|e] eqn:Hx; [|reflexivity].
  cbn [bind fst snd].
  pose proof (aggregate_aggregated rest None init_aggregated) as Ha.
  pose proof (@aggregate_collects (u "Executive Summary") rest eq_refl None empty_sections [] eq_refl) as H4.
  pose proof (@aggregate_collects (u "Technical Expertise") rest eq_refl None empty_sections [] eq_refl) as H5.
  pose proof (@aggregate_collects (u "Functional Expertise") rest eq_refl None empty_sections [] eq_refl) as H6.
  pose proof (@aggregate_collects (u "Experience") rest eq_refl None empty_sections [] eq_refl) as H7.
  pose proof (@aggregate_collects (u "Mobility") rest eq_refl None empty_sections [] eq_refl) as H8.
  pose proof (@aggregate_collects (u "Industry Sectors") rest eq_refl None empty_sections [] eq_refl) as H9.
  pose proof (@aggregate_collects (u "Languages Spoken") rest eq_refl None empty_sections [] eq_refl) as H10.
  pose proof (@aggregate_collects (u "Certifications") rest eq_refl None empty_sections [] eq_refl) as H11.
  pose proof (@aggregate_collects (u "Methodologies") rest eq_refl None empty_sections [] eq_refl) as H12.
  unfold aggregate. fold empty_sections. fold empty_sections in Ha.
  destruct (fold_left aggregate_step rest (None, empty_sections)) as [cur m1].
  cbn [snd app] in *. destruct Ha as [Hk _].
  destruct (required_dict _ Hk) as (l1 & l2 & l3 & l4 & l5 & l6 & l7 & l8 & l9 & l10 & l11 & l12 & ->).
  clear Hk. cbn [map fst snd].
  collected_key H4 l4. collected_key H5 l5. collected_key H6 l6. collected_key H7 l7.
  collected_key H8 l8. collected_key H9 l9. collected_key H10 l10.
  collected_key H11 l11. collected_key H12 l12.
  subst l4 l5 l6 l8 l9 l10 l11 l12.
  match goal with |- context [fold_left _ _ (Ok ?m)] =>
    change m with (profile_map info rest (Lines l7))
  end.
  unfold REQUIRED_SECTIONS. cbn [fold_left].
  do 6 skip_section.
  match goal with |- context [process_section _ (Ok ?m) _] =>
    rewrite (@process_experience tbl m l7 eq_refl)
  end.
  rewrite <- H7.
  destruct l7 as [|line0 l7].
  - do 5 skip_section. reflexivity.
  - destruct (_experience_section_helper tbl (line0 :: l7)) as [projects|e] eqn:Hp.
    + cbn [bind].
      match goal with |- context [process_section _ (Ok ?m) _] =>
        change m with (profile_map info rest (Projects projects))
      end.
      do 5 skip_section. reflexivity.
    + cbn [bind]. now rewrite !process_section_raise.
Qed.

(** [_parse_profile] returns when the extraction does, and raises the
    TypeError of the extraction when it does not. *)
Lemma parse_outcomes tbl content :
  alnum_table_ok tbl ->
  match _parse_profile tbl content with
  | Ok doc => exists r, _extract_contact_information content = Ok r
  | Raise e => e = TypeError /\ _extract_contact_information content = Raise TypeError
  end.
Proof.
  intros Htbl. rewrite parse_profile_eq.
  pose proof (@extract_raises_type_error content) as Hte.
  destruct (_extract_contact_information content) as [[info rest]|e0] eqn:Hx; cbn [bind fst snd].
  - destruct (collected rest (u "Experience")) as [|x l]; [eauto|].
    destruct (experience_section_helper_total (x :: l) Htbl) as (projects & ->).
    cbn [bind]. eauto.
  - rewrite (Hte e0 eq_refl). auto.
Qed.

Lemma entry_name_entry s c : entry_name (entry s c) = Some s.
Proof. reflexivity. Qed.

Lemma section_entries_repeat kv :
  map entry_name (section_entries kv) =
  repeat (Some (fst kv)) (length (section_entries kv)).
Proof.
  destruct kv as [k v].
  assert (H : forall e, In e (section_entries (k, v)) -> entry_name e = Some k).
  { intros e He. apply section_entries_names in He. now destruct He as (c & ->). }
  cbn [fst]. induction (section_entries (k, v)) as [|e l IH]; [reflexivity|].
  cbn [map length repeat]. rewrite (H e (or_introl eq_refl)). f_equal.
  apply IH. intros e' He'. apply H. now right.
Qed.

(** The names of the entries of the assembled document: the keys of the
    map in their order, each as often as its section has entries. *)
Lemma assemble_names m :
  map entry_name (assemble m) =
  flat_map (fun sk => repeat (Some (fst sk)) (snd sk))
    (combine (map fst m) (map (fun kv => length (section_entries kv)) m)).
Proof.
  unfold assemble. induction m as [|kv m IH]; [reflexivity|].
  cbn [flat_map map combine fst snd]. rewrite map_app, section_entries_repeat. now rewrite IH.
Qed.

Lemma repeat_some (A : Type) (x : A) n : repeat (Some x) n = map Some (repeat x n).
Proof. induction n; simpl; congruence. Qed.

Lemma flat_map_some (A B : Type) (f : A -> list B) l :
  flat_map (fun a => map Some (f a)) l = map Some (flat_map f l).
Proof. induction l; simpl; [reflexivity|]. now rewrite map_app, IHl. Qed.

(** X9.  [_parse_profile] returns exactly when the contact extraction
    does: the aggregation, the segmenter and the assembly never raise, and
    the only exception of the function is the TypeError of an extraction
    that recorded no header. *)
Theorem parse_raises_only_with_the_extraction tbl content :
  alnum_table_ok tbl ->
  match _parse_profile tbl content with
  | Ok doc => exists r, _extract_contact_information content = Ok r
  | Raise e => e = TypeError /\ _extract_contact_information content = Raise TypeError
  end.
Proof. apply parse_outcomes. Qed.

Lemma parse_raises_only_with_the_extraction_witness :
  alnum_table_ok ascii_words
  /\ match _parse_profile ascii_words headerless with
     | Ok doc => exists r, _extract_contact_information headerless = Ok r
     | Raise e => e = TypeError /\ _extract_contact_information headerless = Raise TypeError
     end.
Proof.
  split; [exact ascii_words_ok|].
  exact (@parse_raises_only_with_the_extraction ascii_words headerless ascii_words_ok).
Defined.

(** X10.  The entries of the document come in the order in which
    [REQUIRED_SECTIONS] declares the sections: the names of the entries are
    the twelve names in that order, each repeated as often as its section
    has entries, and left out when it has none. *)
Theorem entries_follow_the_declaration_order tbl content doc :
  _parse_profile tbl content = Ok doc ->
  exists entries names,
    doc = document entries
    /\ map entry_name entries = map Some names
    /\ in_declaration_order names.
Proof.
  intros H. apply parse_profile_inv in H.
  destruct H as (info & rest & x & _ & -> & _).
  set (m := profile_map info rest x).
  exists (assemble m),
    (flat_map (fun sk => repeat (fst sk) (snd sk))
       (combine REQUIRED_SECTIONS (map (fun kv => length (section_entries kv)) m))).
  split; [reflexivity|]. split.
  - rewrite assemble_names. unfold m at 1. rewrite profile_map_keys.
    rewrite <- flat_map_some. apply flat_map_ext. intros [s k]. apply repeat_some.
  - eexists. split; [|reflexivity].
    rewrite length_map. unfold m. now rewrite <- (profile_map_keys info rest x), length_map.
Qed.

Lemma entries_follow_the_declaration_order_witness :
  _parse_profile ascii_words sample_profile = Ok sample_document
  /\ exists entries names,
       sample_document = document entries
       /\ map entry_name entries = map Some names
       /\ in_declaration_order names.
Proof.
  split; [vm_compute; reflexivity|].
  apply (@entries_follow_the_declaration_order ascii_words sample_profile).
  vm_compute. reflexivity.
Defined.

(** X11.  A document that [_parse_profile] returns begins with the Name
    entry, whose content is a string that is not blank, and has no other
    entry of that name: without a name there is no document. *)
Theorem name_entry_comes_first tbl content doc :
  _parse_profile tbl content = Ok doc ->
  exists n others,
    doc = document (entry (u "Name") (PStr n) :: others)
    /\ not_blank n
    /\ Forall (fun e => entry_name e <> Some (u "Name")) others.
Proof.
  intros H. apply parse_profile_inv in H.
  destruct H as (info & rest & x & Hx & -> & _).
  apply extract_fields in Hx. destruct Hx as ((n & Hn & Bn) & _).
  unfold profile_map, final_map. rewrite Hn. rewrite assemble_cons.
  assert (E : section_entries (u "Name", Contact (Some n)) = [entry (u "Name") (PStr n)]).
  { unfold section_entries. cbn [truthy]. rewrite (not_blank_nonempty Bn). reflexivity. }
  rewrite E. cbn [app]. eexists n, _. split; [reflexivity|]. split; [exact Bn|].
  apply Forall_forall. intros e He. apply assemble_In in He.
  destruct He as (s & v & Hin & He). apply section_entries_names in He.
  destruct He as (c & ->). rewrite entry_name_entry. intros Heq. injection Heq as ->.
  simpl in Hin. repeat (destruct Hin as [Hin|Hin]; [discriminate Hin|]). contradiction.
Qed.

Lemma name_entry_comes_first_witness :
  _parse_profile ascii_words sample_profile = Ok sample_document
  /\ exists n others,
       sample_document = document (entry (u "Name") (PStr n) :: others)
       /\ not_blank n
       /\ Forall (fun e => entry_name e <> Some (u "Name")) others.
Proof.
  split; [vm_compute; reflexivity|].
  apply (@name_entry_comes_first ascii_words sample_profile).
  vm_compute. reflexivity.
Defined.

(** ** The segmenter *)

Lemma segment_loop_details tbl lines :
  Forall (fun line => is_project_header tbl line = false) lines ->
  forall info details contents,
    exists contents',
      segment_loop tbl lines info details contents = Ok (info, details ++ [contents']).
Proof.
  induction 1 as [|line rest Hl _ IH]; intros info details contents; cbn [segment_loop].
  - eauto.
  - rewrite Hl. apply IH.
Qed.

(** X12.  The records of the segmenter are the headers of the header
    lines, in their order, paired by position with groups of detail lines:
    the groups, one after the other, are the detail lines of the input in
    their order, every group but the last one has a line in it, and there
    is at most one group more than there are headers.  So there are never
    more records than header lines. *)
Theorem segmenter_pairs_by_position tbl lines projects :
  _experience_section_helper tbl lines = Ok projects ->
  exists headers details,
    projects = map project (combine headers details)
    /\ headers_for (header_lines tbl lines) headers
    /\ flat_map group_list details = detail_lines tbl lines
    /\ length details <= S (length headers)
    /\ Forall (fun d => truthy_lines d = true) (removelast details)
    /\ length projects <= length (header_lines tbl lines).
Proof.
  unfold _experience_section_helper.
  destruct (segment_loop tbl lines [] [] None) as [st|e] eqn:E; [|discriminate].
  cbn [bind]. intros H. injection H as <-.
  apply segment_loop_structure in E.
  destruct E as (headers & groups & E1 & Hhd & E2 & _ & Hf & Hl & Hr).
  cbn [app group_list] in *. exists headers, groups. rewrite E1, E2.
  repeat split; auto.
  rewrite length_map, length_combine.
  unfold headers_for in Hhd. apply Forall2_length in Hhd. lia.
Qed.

Lemma segmenter_pairs_by_position_witness :
  _experience_section_helper ascii_words two_projects = Ok two_project_records
  /\ exists headers details,
       two_project_records = map project (combine headers details)
       /\ headers_for (header_lines ascii_words two_projects) headers
       /\ flat_map group_list details = detail_lines ascii_words two_projects
       /\ length details <= S (length headers)
       /\ Forall (fun d => truthy_lines d = true) (removelast details)
       /\ length two_project_records <= length (header_lines ascii_words two_projects).
Proof.
  split; [vm_compute; reflexivity|].
  apply (@segmenter_pairs_by_position ascii_words two_projects). vm_compute. reflexivity.
Defined.

(** X13.  Lines without a header line give no record: the segmenter
    returns the empty list and every line is lost. *)
Theorem no_header_line_no_record tbl lines :
  Forall (fun line => is_project_header tbl line = false) lines ->
  _experience_section_helper tbl lines = Ok [].
Proof.
  intros H. unfold _experience_section_helper.
  destruct (@segment_loop_details tbl lines H [] [] None) as (c & ->). reflexivity.
Qed.

Lemma no_header_line_no_record_witness :
  Forall (fun line => is_project_header ascii_words line = false) [ u "did X"; u "did Y" ]
  /\ _experience_section_helper ascii_words [ u "did X"; u "did Y" ] = Ok [].
Proof.
  assert (H : Forall (fun line => is_project_header ascii_words line = false)
                [ u "did X"; u "did Y" ])
    by (repeat constructor; vm_compute; reflexivity).
  split; [exact H|].
  exact (@no_header_line_no_record ascii_words [ u "did X"; u "did Y" ] H).
Defined.

(** X14.  On lines that are made of groups, each a header line followed
    by at least one detail line, the segmenter returns one record per
    group, in order, with the header that the header helper makes of the
    group's header line and exactly the detail lines of the group. *)
Theorem well_formed_lines_pair_up tbl groups :
  alnum_table_ok tbl -> Forall (group_ok tbl) groups ->
  _experience_section_helper tbl (group_lines groups) =
    Ok (map (fun g => project (header_of (fst g), Some (snd g))) groups)
  /\ Forall (fun g => _experienceHeaderHelper (fst g) = Ok (header_of (fst g))) groups.
Proof.
  intros Htbl Hg. split; [now apply well_formed_pairing|].
  apply Forall_forall. intros g Hin. rewrite Forall_forall in Hg.
  destruct (Hg g Hin) as (Hh & _).
  destruct (header_helper_ok (fst g) Htbl Hh) as (t & p & i & E & _).
  unfold header_of. now rewrite E.
Qed.

Lemma well_formed_lines_pair_up_witness :
  alnum_table_ok ascii_words
  /\ Forall (group_ok ascii_words) two_groups
  /\ _experience_section_helper ascii_words (group_lines two_groups) =
       Ok (map (fun g => project (header_of (fst g), Some (snd g))) two_groups)
  /\ Forall (fun g => _experienceHeaderHelper (fst g) = Ok (header_of (fst g))) two_groups.
Proof.
  assert (H : Forall (group_ok ascii_words) two_groups).
  { repeat constructor; try (vm_compute; reflexivity); discriminate. }
  split; [exact ascii_words_ok|]. split; [exact H|].
  exact (@well_formed_lines_pair_up ascii_words two_groups ascii_words_ok H).
Defined.

(** X15.  A header line begins with a capital letter of [A-Z]: a line
    that begins with a bullet, with whitespace or with any other character
    is read as a detail line, and so is the empty line. *)
Theorem header_line_starts_with_a_capital tbl line :
  is_project_header tbl line = true ->
  exists c rest, line = c :: rest /\ is_upper c = true.
Proof.
  intros H. apply matches_sound in H. destruct H as (p & rest & -> & Hp).
  assert (Hne : p <> []) by (apply (lang_nonempty Hp); reflexivity).
  destruct p as [|c p]; [congruence|]. exists c, (p ++ rest). split; [reflexivity|].
  eapply (lang_first (fun c => is_upper c = true)); [exact Hp| |reflexivity].
  simpl. repeat split; auto; discriminate.
Qed.

Lemma header_line_starts_with_a_capital_witness :
  is_project_header ascii_words (u "Alpha - Lead - Finance") = true
  /\ exists c rest, u "Alpha - Lead - Finance" = c :: rest /\ is_upper c = true.
Proof.
  split; [vm_compute; reflexivity|].
  apply (@header_line_starts_with_a_capital ascii_words (u "Alpha - Lead - Finance")).
  vm_compute. reflexivity.
Defined.

(** ** Bullets *)

Lemma split_from_Forall (P : char -> Prop) r s :
  forall skip cur, Forall P s -> Forall P cur -> Forall (Forall P) (split_from r s skip cur).
Proof.
  induction s as [|c s IH]; intros skip cur Hs Hcur; cbn [split_from].
  - constructor; [now apply Forall_rev | constructor].
  - inversion Hs as [|? ? Hc Hs']; subst.
    destruct skip as [|n]; [|now apply IH].
    destruct (re_match r (c :: s)) as [[|n]|].
    + apply IH; [assumption | now constructor].
    + constructor; [now apply Forall_rev|]. apply IH; [assumption | constructor].
    + apply IH; [assumption | now constructor].
Qed.

(** The bullet pattern matches at every bullet. *)
Lemma bullet_pattern_at_bullet s : exists n, re_match bullet_pattern (bullet :: s) = Some (S n).
Proof.
  destruct (re_match bullet_pattern (bullet :: s)) as [[|n]|] eqn:E.
  - apply re_match_sound in E. destruct E as (p & rest & _ & Hp & Hl).
    apply lang_nonempty in Hp; [|reflexivity]. now destruct p.
  - eauto.
  - exfalso. revert E. unfold re_match, bullet_pattern. cbn [bt].
    unfold is_char. rewrite N.eqb_refl. apply star_loop_total. discriminate.
Qed.

Lemma sub_delete_no_bullet s : forall skip, no_bullet (sub_delete_from bullet_pattern s skip).
Proof.
  unfold no_bullet. induction s as [|c s IH]; intros skip; cbn [sub_delete_from]; [constructor|].
  destruct skip as [|n]; [|apply IH].
  destruct (N.eq_dec c bullet) as [->|Hc].
  - destruct (bullet_pattern_at_bullet s) as (n & ->). apply IH.
  - rewrite bullet_pattern_no_match by assumption. constructor; [assumption | apply IH].
Qed.

Lemma sub_delete_id s : no_bullet s -> re_sub_delete bullet_pattern s = s.
Proof.
  intros H. unfold re_sub_delete.
  rewrite <- (app_nil_r s) at 1. rewrite sub_delete_plain by assumption.
  cbn. apply app_nil_r.
Qed.

Lemma str_split_nonempty sep s : str_split sep s <> [].
Proof.
  destruct s as [|c s]; cbn [str_split]; [discriminate|].
  destruct (c =? sep)%N; [discriminate|]. now destruct (str_split sep s).
Qed.

Lemma str_split_pieces sep s : Forall (Forall (fun c => c <> sep)) (str_split sep s).
Proof.
  induction s as [|c s IH]; cbn [str_split]; [repeat constructor|].
  destruct (c =? sep)%N eqn:E; [constructor; [constructor | assumption]|].
  apply N.eqb_neq in E.
  destruct (str_split sep s) as [|piece pieces]; [repeat constructor; assumption|].
  inversion IH; subst. constructor; [now constructor | assumption].
Qed.

Lemma str_split_app sep a b :
  str_split sep (a ++ sep :: b) = str_split sep a ++ str_split sep b.
Proof.
  induction a as [|c a IH]; cbn [app str_split].
  - now rewrite N.eqb_refl.
  - destruct (c =? sep)%N; [now rewrite IH|]. rewrite IH.
    pose proof (str_split_nonempty sep a) as Hne.
    now destruct (str_split sep a).
Qed.

Lemma str_split_plain sep s : Forall (fun c => c <> sep) s -> str_split sep s = [s].
Proof.
  induction 1 as [|c s Hc _ IH]; cbn [str_split]; [reflexivity|].
  apply N.eqb_neq in Hc. now rewrite Hc, IH.
Qed.

Lemma bullet_helper_app a b :
  _bullet_section_helper (a ++ bullet :: b)
  = _bullet_section_helper a ++ _bullet_section_helper b.
Proof.
  unfold _bullet_section_helper. cbn zeta.
  now rewrite str_split_app, filter_app, map_app.
Qed.

Lemma bullet_helper_clean item : clean_item item -> _bullet_section_helper item = [item].
Proof.
  intros (Hb & Hs & Hn). unfold _bullet_section_helper. cbn zeta.
  rewrite (str_split_plain Hn). cbn [filter]. rewrite Hs.
  rewrite (not_blank_nonempty Hb). cbn [map]. now rewrite Hs.
Qed.

Lemma bullet_helper_joined items :
  Forall clean_item items ->
  forall a, _bullet_section_helper (a ++ joined items) = _bullet_section_helper a ++ items.
Proof.
  unfold joined. induction 1 as [|item items Hi _ IH]; intros a; cbn [flat_map].
  - now rewrite !app_nil_r.
  - cbn [app]. rewrite bullet_helper_app, IH, (bullet_helper_clean Hi). reflexivity.
Qed.

(** X16.  The three fields of a header that the header helper returns are
    strings that are not blank, have no whitespace at their ends and no
    bullet. *)
Theorem header_fields_are_clean line v :
  _experienceHeaderHelper line = Ok v ->
  exists t p i, v = header_dict t p i /\ clean_item t /\ clean_item p /\ clean_item i.
Proof.
  unfold _experienceHeaderHelper.
  set (parts := re_split project_separator (strip (re_sub_delete bullet_pattern line))).
  assert (Hparts : Forall no_bullet parts).
  { apply split_from_Forall; [|constructor]. apply strip_Forall, sub_delete_no_bullet. }
  assert (Hc : Forall clean_item (filter nonempty (map strip parts))).
  { apply Forall_forall. intros s Hs. apply filter_In in Hs. destruct Hs as [Hs Hn].
    apply in_map_iff in Hs. destruct Hs as (p & <- & Hp).
    rewrite Forall_forall in Hparts. repeat split.
    - now apply strip_not_blank.
    - apply strip_idem.
    - apply strip_Forall. now apply Hparts. }
  destruct (filter nonempty (map strip parts)) as [|s0 [|s1 [|s2 more]]]; try discriminate.
  intros E. injection E as <-.
  pose proof (Forall_inv Hc) as H0.
  pose proof (Forall_inv (Forall_inv_tail Hc)) as H1.
  pose proof (Forall_inv (Forall_inv_tail (Forall_inv_tail Hc))) as H2.
  exists s0, s1, s2. unfold header_dict, str_or_none.
  rewrite (not_blank_nonempty (proj1 H0)), (not_blank_nonempty (proj1 H1)),
    (not_blank_nonempty (proj1 H2)). auto.
Qed.

Lemma header_fields_are_clean_witness :
  _experienceHeaderHelper (bullet :: u " Alpha - Lead  - Finance - EMEA")
    = Ok (header_dict (u "Alpha") (u "Lead") (u "Finance"))
  /\ exists t p i,
       header_dict (u "Alpha") (u "Lead") (u "Finance") = header_dict t p i
       /\ clean_item t /\ clean_item p /\ clean_item i.
Proof.
  split; [vm_compute; reflexivity|].
  apply (@header_fields_are_clean (bullet :: u " Alpha - Lead  - Finance - EMEA")).
  vm_compute. reflexivity.
Defined.

(** X17.  The items that [_bullet_section_helper] returns are not blank,
    have no whitespace at their ends and no bullet. *)
Theorem bullet_items_are_clean section_text :
  Forall clean_item (_bullet_section_helper section_text).
Proof.
  unfold _bullet_section_helper. apply Forall_forall. intros b Hb.
  apply in_map_iff in Hb. destruct Hb as (p & <- & Hp).
  apply filter_In in Hp. destruct Hp as [Hp Hn].
  pose proof (str_split_pieces bullet section_text) as Hall.
  rewrite Forall_forall in Hall. specialize (Hall p Hp).
  repeat split.
  - now apply strip_not_blank.
  - apply strip_idem.
  - now apply strip_Forall.
Qed.

(** X18.  [_bullet_section_helper] works bullet by bullet: the items of
    two texts joined by a bullet are the items of the first followed by
    the items of the second; and it gives back the items of a text that was
    made by writing a bullet before each of them, when the items are not
    blank and have no whitespace at their ends and no bullet. *)
Theorem bullet_helper_splits_at_bullets a b items :
  _bullet_section_helper (a ++ bullet :: b)
    = _bullet_section_helper a ++ _bullet_section_helper b
  /\ (Forall clean_item items -> _bullet_section_helper (joined items) = items).
Proof.
  split; [apply bullet_helper_app|].
  intros H. apply (bullet_helper_joined H []).
Qed.

Lemma bullet_helper_splits_at_bullets_witness :
  Forall clean_item [ u "Python"; u "SQL" ]
  /\ _bullet_section_helper (joined [ u "Python"; u "SQL" ]) = [ u "Python"; u "SQL" ].
Proof.
  assert (H : Forall clean_item [ u "Python"; u "SQL" ]).
  { repeat constructor; try (vm_compute; reflexivity); intros E; discriminate E. }
  split; [exact H|].
  exact (proj2 (@bullet_helper_splits_at_bullets [] [] [ u "Python"; u "SQL" ]) H).
Defined.

(** X19.  The result of [_longform_section_helper] has no bullet and no
    whitespace at its ends, a second pass changes nothing, and on a text
    without a bullet the helper only strips. *)
Theorem longform_helper_is_idempotent section_text :
  no_bullet (_longform_section_helper section_text)
  /\ strip (_longform_section_helper section_text) = _longform_section_helper section_text
  /\ _longform_section_helper (_longform_section_helper section_text)
     = _longform_section_helper section_text
  /\ (no_bullet section_text -> _longform_section_helper section_text = strip section_text).
Proof.
  unfold _longform_section_helper.
  assert (Hn : no_bullet (strip (re_sub_delete bullet_pattern section_text))).
  { apply strip_Forall, sub_delete_no_bullet. }
  split; [assumption|]. split; [apply strip_idem|]. split.
  - rewrite (sub_delete_id Hn). apply strip_idem.
  - intros H. now rewrite (sub_delete_id H).
Qed.

(** ** [_get_file_type] and the trigger *)

(** X20.  [_get_file_type] answers pdf exactly for the paths that end in
    the four characters .pdf, in lower case, and unsupported for all
    others. *)
Theorem file_type_by_suffix file_path :
  (_get_file_type file_path = u "pdf" <-> exists stem, file_path = stem ++ u ".pdf")
  /\ (_get_file_type file_path = u "pdf" \/ _get_file_type file_path = u "unsupported").
Proof.
  unfold _get_file_type, endswith.
  destruct (ustr_eqb (skipn (length file_path - length (u ".pdf")) file_path) (u ".pdf")) eqn:E.
  - split; [|now left]. split; [|reflexivity]. intros _.
    apply ustr_eqb_eq in E.
    exists (firstn (length file_path - length (u ".pdf")) file_path).
    rewrite <- E at 2. symmetry. apply firstn_skipn.
  - split; [|now right]. split; [discriminate|]. intros (stem & ->). exfalso.
    apply ustr_eqb_neq in E. apply E.
    rewrite length_app, Nat.add_sub.
    rewrite skipn_app, Nat.sub_diag, skipn_all. reflexivity.
Qed.

Lemma reader_no_header doc :
  Forall (fun t => matches header_pattern (strip t) = false) (spans_of_doc doc) ->
  existsb is_contact_header (_read_pdf_with_metadata doc) = false.
Proof.
  intros H. destruct (existsb is_contact_header (_read_pdf_with_metadata doc)) eqn:E;
    [|reflexivity].
  apply existsb_exists in E. destruct E as (item & Hin & Hh).
  assert (Ht : In (text item) (map text (_read_pdf_with_metadata doc))) by now apply in_map.
  rewrite reader_texts in Ht. apply filter_In in Ht. destruct Ht as [Ht _].
  apply in_map_iff in Ht. destruct Ht as (t & Et & Hin').
  rewrite Forall_forall in H. specialize (H t Hin').
  unfold is_contact_header in Hh. congruence.
Qed.

(** X21.  The trigger, once the file is fetched.  It returns without
    setting the blob exactly when the reader fails or finds no fragment;
    it sets the blob to the document of [_parse_profile] exactly when that
    returns; otherwise it raises TypeError, the exception of a contact
    extraction that recorded no header, as it does for every document with
    fragments of which no span matches the header pattern. *)
Theorem trigger_outcomes tbl opened :
  alnum_table_ok tbl ->
  match ProfileCreatedOrModified tbl opened with
  | Ok None =>
      opened = None \/ exists doc, opened = Some doc /\ _read_pdf_with_metadata doc = []
  | Ok (Some out) =>
      exists doc, opened = Some doc /\ _read_pdf_with_metadata doc <> []
                  /\ _parse_profile tbl (_read_pdf_with_metadata doc) = Ok out
  | Raise e =>
      e = TypeError
      /\ exists doc, opened = Some doc /\ _read_pdf_with_metadata doc <> []
                     /\ _extract_contact_information (_read_pdf_with_metadata doc)
                        = Raise TypeError
  end
  /\ (forall doc, opened = Some doc -> _read_pdf_with_metadata doc <> [] ->
        Forall (fun t => matches header_pattern (strip t) = false) (spans_of_doc doc) ->
        ProfileCreatedOrModified tbl opened = Raise TypeError).
Proof.
  intros Htbl. unfold ProfileCreatedOrModified.
  destruct opened as [doc|]; cbn [option_map]; [|split; [now left | discriminate]].
  destruct (_read_pdf_with_metadata doc) as [|item rest] eqn:Er.
  - split; [right; eauto|]. intros d E Hne. injection E as <-. now rewrite Er in Hne.
  - pose proof (@parse_outcomes tbl (item :: rest) Htbl) as Hp.
    destruct (_parse_profile tbl (item :: rest)) as [out|e] eqn:Ep; cbn [bind].
    + split.
      * exists doc. rewrite Er. repeat split; [discriminate | assumption].
      * intros d E _ Hall. injection E as <-.
        apply reader_no_header in Hall. rewrite Er in Hall.
        apply no_header_raises in Hall. destruct Hp as (r & Hp). congruence.
    + destruct Hp as [-> Hp]. split.
      * split; [reflexivity|]. exists doc. rewrite Er. repeat split; [discriminate | assumption].
      * reflexivity.
Qed.

Lemma trigger_outcomes_witness :
  alnum_table_ok ascii_words
  /\ ProfileCreatedOrModified ascii_words (Some sample_pdf) = Ok (Some sample_pdf_document)
  /\ match ProfileCreatedOrModified ascii_words (Some sample_pdf) with
     | Ok None =>
         Some sample_pdf = None
         \/ exists doc, Some sample_pdf = Some doc /\ _read_pdf_with_metadata doc = []
     | Ok (Some out) =>
         exists doc, Some sample_pdf = Some doc /\ _read_pdf_with_metadata doc <> []
                     /\ _parse_profile ascii_words (_read_pdf_with_metadata doc) = Ok out
     | Raise e =>
         e = TypeError
         /\ exists doc, Some sample_pdf = Some doc /\ _read_pdf_with_metadata doc <> []
                        /\ _extract_contact_information (_read_pdf_with_metadata doc)
                           = Raise TypeError
     end
  /\ (forall doc, Some sample_pdf = Some doc -> _read_pdf_with_metadata doc <> [] ->
        Forall (fun t => matches header_pattern (strip t) = false) (spans_of_doc doc) ->
        ProfileCreatedOrModified ascii_words (Some sample_pdf) = Raise TypeError).
Proof.
  split; [exact ascii_words_ok|]. split; [vm_compute; reflexivity|].
  exact (@trigger_outcomes ascii_words (Some sample_pdf) ascii_words_ok).
Defined.
